(** * image_process: the recompute pipeline of [image_processor.py]

    A shallow embedding of the image pipeline of [ImageProcessor]
    ([load_image_from_path], [update_processed_image] and the stage
    functions it calls) together with the properties of its specification.

    Conventions of the embedding.
    - A numpy [uint8] array is an [ndarray]: a flag telling whether the array
      has a channel axis ([len(image.shape) == 3]) and the samples as rows of
      pixels of channel samples, each sample a [Z] in [0, 255].
    - A Python [float] is an exact rational ([Q]); the rounding error of a
      binary64 operation is not part of the model.  The sine and cosine terms
      of the rotation matrix are real numbers ([R]).
    - OpenCV functions that act sample by sample ([convertScaleAbs],
      [addWeighted], [bitwise_and], [bitwise_not], [add], [filter2D],
      [cvtColor] with [COLOR_GRAY2BGR]) are written out from their documented
      semantics.  The remaining OpenCV services (decoding, colour conversion,
      thresholding, morphology, Gaussian and bilateral filtering, warping)
      are the methods of the class [Cv2].
    - A call on the orchestrator ends as an [Outcome]: it returns, or an
      exception leaves it, in both cases with the attributes it has assigned
      so far.  [display_image], which closes a load, a recompute and a
      reset, raises on an image without channel axis. *)

From Stdlib Require Import Ascii String ZArith QArith Qabs Qround Qminmax Reals Psatz Bool List.
Import ListNotations.

Local Open Scope Z_scope.

(* ===================================================================== *)
(** ** Numbers *)
(* ===================================================================== *)

(** Python's [int(x)] on a float: truncation toward zero. *)
Definition py_int (q : Q) : Z :=
  if Qle_bool 0 q then Qfloor q else Qceiling q.

(** OpenCV's [cvRound]: round to nearest, ties to even. *)
Definition cvRound (q : Q) : Z :=
  let f := Qfloor q in
  match (q - inject_Z f ?= 1 # 2)%Q with
  | Lt => f
  | Gt => f + 1
  | Eq => if Z.even f then f else f + 1
  end.

(** Strict comparison of floats, [x < y]. *)
Definition Qlt_bool (x y : Q) : bool := negb (Qle_bool y x).

(** [saturate_cast<uchar>] on an integer. *)
Definition saturate_u8 (z : Z) : Z := Z.max 0 (Z.min 255 z).

(** [saturate_cast<uchar>] on a real value: round, then clamp. *)
Definition saturate_cast (q : Q) : Z := saturate_u8 (cvRound q).

(** The clamp of the specification, [clamp(x, 0, 255)], followed by the
    rounding every 8-bit store performs. *)
Definition clamp_u8 (q : Q) : Z := saturate_u8 (cvRound q).

Definition is_u8 (z : Z) : Prop := 0 <= z <= 255.

(* ===================================================================== *)
(** ** Arrays *)
(* ===================================================================== *)

Definition pixel := list Z.
Definition grid := list (list pixel).

Record ndarray := mk_ndarray {
  ndim3 : bool;     (* len(image.shape) == 3 *)
  pixels : grid
}.

Definition gray_image (g : list (list Z)) : ndarray :=
  mk_ndarray false (map (map (fun s => [s])) g).

(** [image.shape[:2]]: the number of rows and the number of columns. *)
Definition rows (img : ndarray) : Z := Z.of_nat (length (pixels img)).
Definition cols (img : ndarray) : Z :=
  match pixels img with
  | [] => 0
  | row :: _ => Z.of_nat (length row)
  end.

(** Number of channels: 1 for an array without channel axis. *)
Definition channels (img : ndarray) : Z := if ndim3 img then 3 else 1.

(** Every row has [w] pixels. *)
Definition rectangular (w : Z) (img : ndarray) : Prop :=
  Forall (fun row => Z.of_nat (length row) = w) (pixels img).

(** Every sample is an 8-bit value. *)
Definition u8_grid (g : grid) : Prop :=
  Forall (Forall (Forall is_u8)) g.
Definition u8_image (img : ndarray) : Prop := u8_grid (pixels img).

Definition map_samples (f : Z -> Z) (img : ndarray) : ndarray :=
  mk_ndarray (ndim3 img) (map (map (map f)) (pixels img)).

(** Sample-wise combination of two arrays of one shape (OpenCV raises on
    arrays of different shapes; every call in the program passes arrays of
    one shape, and the model keeps the common part). *)
Fixpoint zip_with {A B C} (f : A -> B -> C) (l : list A) (m : list B) : list C :=
  match l, m with
  | x :: l', y :: m' => f x y :: zip_with f l' m'
  | _, _ => []
  end.

Definition zip_samples (f : Z -> Z -> Z) (a b : ndarray) : ndarray :=
  mk_ndarray (ndim3 a) (zip_with (zip_with (zip_with f)) (pixels a) (pixels b)).

(** [cv2.convertScaleAbs(src, alpha, beta)]:
    [dst = saturate_cast<uchar>(|src*alpha + beta|)]. *)
Definition convertScaleAbs (img : ndarray) (alpha beta : Q) : ndarray :=
  map_samples (fun s => saturate_cast (Qabs (inject_Z s * alpha + beta))) img.

(** [cv2.addWeighted(src1, alpha, src2, beta, gamma)]:
    [dst = saturate_cast<uchar>(src1*alpha + src2*beta + gamma)]. *)
Definition addWeighted (a : ndarray) (alpha : Q) (b : ndarray) (beta gamma : Q)
  : ndarray :=
  zip_samples
    (fun x y => saturate_cast (inject_Z x * alpha + inject_Z y * beta + gamma))
    a b.

Definition bitwise_not (img : ndarray) : ndarray :=
  map_samples (fun s => Z.lxor s 255) img.

Definition bitwise_and (a b : ndarray) : ndarray := zip_samples Z.land a b.

(** [cv2.add]: saturating sum. *)
Definition cv_add (a b : ndarray) : ndarray :=
  zip_samples (fun x y => saturate_u8 (x + y)) a b.

(** [cv2.cvtColor(m, cv2.COLOR_GRAY2BGR)]: the sample in three channels. *)
Definition cvtColor_GRAY2BGR (img : ndarray) : ndarray :=
  mk_ndarray true
    (map (map (fun p => match p with
                        | s :: _ => [s; s; s]
                        | [] => []
                        end)) (pixels img)).

(** [ndarray.copy()] *)
Definition copy (img : ndarray) : ndarray := img.

(* ===================================================================== *)
(** ** Photometric stages *)
(* ===================================================================== *)

(** [adjust_contrast] *)
Definition adjust_contrast (image : ndarray) (contrast : Q) : ndarray :=
  convertScaleAbs image contrast 0.

(** [adjust_brightness] *)
Definition adjust_brightness (image : ndarray) (brightness : Z) : ndarray :=
  let brightness_factor := (inject_Z brightness * (255 # 100))%Q in
  convertScaleAbs image 1 brightness_factor.


(* ===================================================================== *)
(** ** Indexed traversal and [cv2.filter2D] *)
(* ===================================================================== *)

Fixpoint imap_from {A B} (f : nat -> A -> B) (i : nat) (l : list A) : list B :=
  match l with
  | [] => []
  | x :: t => f i x :: imap_from f (S i) t
  end.

Definition imap {A B} (f : nat -> A -> B) (l : list A) : list B :=
  imap_from f 0 l.

(** The sample of channel [c] at row [i], column [j]. *)
Definition sample_at (g : grid) (i j c : nat) : Z :=
  nth c (nth j (nth i g []) []) 0.

Definition grid_width (g : grid) : nat :=
  match g with
  | [] => 0%nat
  | row :: _ => length row
  end.

(** [cv::borderInterpolate] for [BORDER_REFLECT_101], the default border of
    [filter2D]: [gfedcb|abcdefgh|gfedcba].  One reflection is enough for the
    3x3 kernel of the program. *)
Definition borderInterpolate (p len : Z) : Z :=
  if (0 <=? p) && (p <? len) then p
  else if len =? 1 then 0
  else if p <? 0 then - p
  else 2 * len - 2 - p.

Definition Qsum (l : list Q) : Q := fold_right Qplus 0%Q l.

(** The correlation of the kernel, anchored at its centre, with the
    neighbourhood of the sample of channel [c] at [(i, j)]. *)
Definition correlate (g : grid) (kernel : list (list Q)) (i j c : nat) : Q :=
  let h := Z.of_nat (length g) in
  let w := Z.of_nat (grid_width g) in
  let ay := Z.of_nat (length kernel) / 2 in
  let ax := Z.of_nat (match kernel with [] => 0%nat | r :: _ => length r end) / 2 in
  Qsum (imap (fun di krow =>
    Qsum (imap (fun dj k =>
      let y := borderInterpolate (Z.of_nat i + Z.of_nat di - ay) h in
      let x := borderInterpolate (Z.of_nat j + Z.of_nat dj - ax) w in
      (k * inject_Z (sample_at g (Z.to_nat y) (Z.to_nat x) c))%Q) krow)) kernel).

(** [cv2.filter2D(src, -1, kernel)]: every sample is replaced by the
    saturated correlation of the kernel with its neighbourhood. *)
Definition filter2D (img : ndarray) (kernel : list (list Q)) : ndarray :=
  let g := pixels img in
  mk_ndarray (ndim3 img)
    (imap (fun i row =>
       imap (fun j p =>
         imap (fun c _ => saturate_cast (correlate g kernel i j c)) p) row) g).

(** Assignment to one element of a list, [l[n] = v]. *)
Fixpoint list_set {A} (n : nat) (v : A) (l : list A) : list A :=
  match l, n with
  | [], _ => []
  | _ :: t, O => v :: t
  | x :: t, S n' => x :: list_set n' v t
  end.

(** [kernel[i, j] = v] *)
Definition set_item2 {A} (i j : nat) (v : A) (m : list (list A)) : list (list A) :=
  list_set i (list_set j v (nth i m [])) m.

(** [adjust_sharpness] *)
Definition adjust_sharpness (image : ndarray) (sharpness : Q) : ndarray :=
  let kernel : list (list Q) :=
    [[-1; -1; -1]; [-1; 9; -1]; [-1; -1; -1]]%Q in
  let kernel := map (map (fun k => k * sharpness)%Q) kernel in
  let kernel := set_item2 1 1 (8 * sharpness + 1)%Q kernel in
  let sharpened := filter2D image kernel in
  addWeighted image (1 - sharpness)%Q sharpened sharpness 0.


(* ===================================================================== *)
(** ** Slicing and the crop stage *)
(* ===================================================================== *)

(** A bound of a Python slice, normalised against the length: a negative
    bound counts from the end, and the result is clipped to [0, len]. *)
Definition slice_bound (len i : Z) : Z :=
  let i' := if i <? 0 then i + len else i in
  Z.max 0 (Z.min len i').

(** [l[lo:hi]] *)
Definition py_slice {A} (l : list A) (lo hi : Z) : list A :=
  let len := Z.of_nat (length l) in
  let a := slice_bound len lo in
  let b := slice_bound len hi in
  firstn (Z.to_nat (b - a)) (skipn (Z.to_nat a) l).

(** [image[top:bottom, left:right]] *)
Definition slice2 (img : ndarray) (top bottom left right : Z) : ndarray :=
  mk_ndarray (ndim3 img)
    (map (fun row => py_slice row left right) (py_slice (pixels img) top bottom)).

(** The pixel rectangle [(left, top, right, bottom)] that [apply_crop]
    slices: the truncated coordinates, each axis reset on its own when its
    range is empty or reversed. *)
Definition crop_box (width height : Z) (left_ratio top_ratio right_ratio bottom_ratio : Q)
  : Z * Z * Z * Z :=
  let left := py_int (inject_Z width * left_ratio) in
  let top := py_int (inject_Z height * top_ratio) in
  let right := py_int (inject_Z width * right_ratio) in
  let bottom := py_int (inject_Z height * bottom_ratio) in
  let horizontal := if left >=? right then (0, width) else (left, right) in
  let vertical := if top >=? bottom then (0, height) else (top, bottom) in
  (fst horizontal, fst vertical, snd horizontal, snd vertical).

(** [apply_crop] *)
Definition apply_crop (image : ndarray) (left_ratio top_ratio right_ratio bottom_ratio : Q)
  : ndarray :=
  let height := rows image in
  let width := cols image in
  match crop_box width height left_ratio top_ratio right_ratio bottom_ratio with
  | (x0, y0, x1, y1) => slice2 image y0 y1 x0 x1
  end.

(* ===================================================================== *)
(** ** The OpenCV and file services the program calls *)
(* ===================================================================== *)

Inductive ColorConversion := COLOR_BGR2GRAY | COLOR_BGR2LAB | COLOR_LAB2BGR.
Inductive AdaptiveMethod := ADAPTIVE_THRESH_MEAN_C | ADAPTIVE_THRESH_GAUSSIAN_C.
Inductive ThresholdType := THRESH_BINARY | THRESH_BINARY_INV.
Inductive MorphShape := MORPH_RECT | MORPH_CROSS | MORPH_ELLIPSE.
Inductive MorphOp := MORPH_OPEN | MORPH_CLOSE.

Class Cv2 := {
  (* cv2.imdecode(buf, cv2.IMREAD_COLOR): None when the bytes do not decode *)
  imdecode : list Byte.byte -> option ndarray;
  (* cv2.imread(path): None when the file cannot be read or decoded *)
  imread : string -> option ndarray;
  cvtColor : ndarray -> ColorConversion -> ndarray;
  (* cv2.adaptiveThreshold(src, maxValue, method, type, blockSize, C) *)
  adaptiveThreshold :
    ndarray -> Z -> AdaptiveMethod -> ThresholdType -> Z -> Z -> ndarray;
  getStructuringElement : MorphShape -> Z * Z -> ndarray;
  morphologyEx : ndarray -> MorphOp -> Z * Z -> ndarray;
  dilate : ndarray -> ndarray -> ndarray;
  (* cv2.GaussianBlur(src, ksize, sigmaX) *)
  GaussianBlur : ndarray -> Z * Z -> Q -> ndarray;
  (* cv2.bilateralFilter(src, d, sigmaColor, sigmaSpace) *)
  bilateralFilter : ndarray -> Z -> Q -> Q -> ndarray;
  (* cv2.warpAffine(src, M, dsize) with INTER_LINEAR and a constant white
     border *)
  warpAffine : ndarray -> list (list R) -> Z * Z -> ndarray;
  getPerspectiveTransform : list (Q * Q) -> list (Q * Q) -> list (list Q);
  (* cv2.warpPerspective(src, M, dsize) with INTER_LINEAR and a constant
     white border *)
  warpPerspective : ndarray -> list (list Q) -> Z * Z -> ndarray
}.

Class FileSystem := {
  (* open(path, 'rb').read(): None when the file cannot be opened *)
  read_file : string -> option (list Byte.byte);
  (* os.path.abspath *)
  abspath : string -> string
}.

(** [cv2.split]: the array of channel [c]. *)
Definition split_channel (c : nat) (img : ndarray) : ndarray :=
  mk_ndarray false (map (map (fun p => [nth c p 0])) (pixels img)).

(** [cv2.merge([x, y, z])] *)
Definition merge (x y z : ndarray) : ndarray :=
  mk_ndarray true
    (zip_with (zip_with (@app Z))
       (pixels x)
       (zip_with (zip_with (@app Z)) (pixels y) (pixels z))).

Section Stages.
Context {cv : Cv2}.

(** [apply_blur] *)
Definition apply_blur (image : ndarray) (blur_strength : Z) : ndarray :=
  let kernel_size := blur_strength * 2 + 1 in
  GaussianBlur image (kernel_size, kernel_size) 0.

(** [multi_scale_filter], the function nested in both branches of
    [remove_moire] (the two copies are the same text). *)
Definition multi_scale_filter (image : ndarray) : ndarray :=
  let g1 := GaussianBlur image (3, 3) (1 # 2) in
  let g2 := GaussianBlur image (5, 5) 1 in
  let g3 := GaussianBlur image (7, 7) (3 # 2) in
  let blended := addWeighted g1 (4 # 10) g2 (4 # 10) 0 in
  let blended := addWeighted blended (6 # 10) g3 (4 # 10) 0 in
  blended.

(** [remove_moire] on an array (the caller passes the pre-cleanup copy). *)
Definition remove_moire (image : ndarray) : ndarray :=
  if negb (ndim3 image) then
    let filtered := multi_scale_filter image in
    let bilateral := bilateralFilter filtered 9 75 75 in
    bilateral
  else
    let lab := cvtColor image COLOR_BGR2LAB in
    let l := split_channel 0 lab in
    let a := split_channel 1 lab in
    let b := split_channel 2 lab in
    let l_filtered := multi_scale_filter l in
    let lab_filtered := merge l_filtered a b in
    let result_bgr := cvtColor lab_filtered COLOR_LAB2BGR in
    let bilateral := bilateralFilter result_bgr 9 75 75 in
    bilateral.

End Stages.

(* ===================================================================== *)
(** ** Geometric stages *)
(* ===================================================================== *)

(** Python's [int(x)] on a real number. *)
Definition py_int_R (x : R) : Z :=
  if Rle_dec 0 x then Int_part x else - Int_part (- x).

(** [m[i, j]] *)
Definition item2 {A} (d : A) (m : list (list A)) (i j : nat) : A :=
  nth j (nth i m []) d.

(** [cv2.getRotationMatrix2D(center, angle, scale)], with
    [alpha = scale*cos(angle)] and [beta = scale*sin(angle)], the angle in
    degrees. *)
Definition getRotationMatrix2D (center : Z * Z) (angle : Z) (scale : R)
  : list (list R) :=
  let a := (IZR angle * PI / 180)%R in
  let alpha := (scale * cos a)%R in
  let beta := (scale * sin a)%R in
  let cx := IZR (fst center) in
  let cy := IZR (snd center) in
  [[alpha; beta; (1 - alpha) * cx - beta * cy];
   [- beta; alpha; beta * cx + (1 - alpha) * cy]]%R.

(** The canvas [(new_width, new_height)] that [rotate_image] computes from
    the terms of the rotation matrix. *)
Definition rotated_canvas (width height : Z) (rotation_matrix : list (list R))
  : Z * Z :=
  let cos_val := Rabs (item2 0%R rotation_matrix 0 0) in
  let sin_val := Rabs (item2 0%R rotation_matrix 0 1) in
  let new_width := py_int_R (IZR height * sin_val + IZR width * cos_val) in
  let new_height := py_int_R (IZR height * cos_val + IZR width * sin_val) in
  (new_width, new_height).

Section Geometry.
Context {cv : Cv2}.

(** [rotate_image] *)
Definition rotate_image (image : ndarray) (angle : Z) : ndarray :=
  if angle =? 0 then image
  else
    let height := rows image in
    let width := cols image in
    let center := (width / 2, height / 2) in
    let rotation_matrix := getRotationMatrix2D center angle 1 in
    let '(new_width, new_height) := rotated_canvas width height rotation_matrix in
    let rotation_matrix :=
      set_item2 0 2
        (item2 0 rotation_matrix 0 2 + (IZR new_width / 2 - IZR (fst center)))%R
        rotation_matrix in
    let rotation_matrix :=
      set_item2 1 2
        (item2 0 rotation_matrix 1 2 + (IZR new_height / 2 - IZR (snd center)))%R
        rotation_matrix in
    warpAffine image rotation_matrix (new_width, new_height).

(** Python's [min] and [max] of a non-empty sequence of floats. *)
Definition py_min (l : list Q) : Q :=
  match l with
  | [] => 0%Q
  | x :: t => fold_left Qmin t x
  end.
Definition py_max (l : list Q) : Q :=
  match l with
  | [] => 0%Q
  | x :: t => fold_left Qmax t x
  end.

(** [np.dot] of two matrices. *)
Definition np_dot (a b : list (list Q)) : list (list Q) :=
  map (fun row =>
         map (fun j => Qsum (zip_with Qmult row (map (fun r => nth j r 0%Q) b)))
             (seq 0 (match b with [] => 0%nat | r :: _ => length r end)))
      a.

(** [apply_perspective_transform] *)
Definition apply_perspective_transform (image : ndarray)
    (top_left_x top_left_y top_right_x top_right_y
     bottom_left_x bottom_left_y bottom_right_x bottom_right_y : Q) : ndarray :=
  let height := inject_Z (rows image) in
  let width := inject_Z (cols image) in
  let src_points :=
    [(0, 0); (width - 1, 0); (0, height - 1); (width - 1, height - 1)]%Q in
  let offset_x_factor := (width * (1 # 2))%Q in
  let offset_y_factor := (height * (1 # 2))%Q in
  let dst_points :=
    [(0 + top_left_x * offset_x_factor, 0 + top_left_y * offset_y_factor);
     (width - 1 + top_right_x * offset_x_factor, 0 + top_right_y * offset_y_factor);
     (0 + bottom_left_x * offset_x_factor, height - 1 + bottom_left_y * offset_y_factor);
     (width - 1 + bottom_right_x * offset_x_factor,
      height - 1 + bottom_right_y * offset_y_factor)]%Q in
  let perspective_matrix := getPerspectiveTransform src_points dst_points in
  let min_x := py_min (map fst dst_points) in
  let max_x := py_max (map fst dst_points) in
  let min_y := py_min (map snd dst_points) in
  let max_y := py_max (map snd dst_points) in
  let new_width := py_int (max_x - min_x) in
  let new_height := py_int (max_y - min_y) in
  let translation_matrix := [[1; 0; - min_x]; [0; 1; - min_y]; [0; 0; 1]]%Q in
  let perspective_matrix := np_dot translation_matrix perspective_matrix in
  warpPerspective image perspective_matrix (new_width, new_height).

End Geometry.

(* ===================================================================== *)
(** ** The orchestrator: widgets, buffers, load and recompute *)
(* ===================================================================== *)

(** The values of the sliders and switches of [create_parameter_frame]. *)
Record Widgets := mk_widgets {
  contrast_slider : Z;        (* range 0..200, default 100 *)
  brightness_slider : Z;      (* range -100..100, default 0 *)
  sharpness_slider : Z;       (* range 0..100, default 0 *)
  blur_slider : Z;            (* range 0..20, default 0 *)
  rotate_slider : Z;          (* range -180..180, default 0 *)
  moire_switch : bool;
  crop_switch : bool;
  crop_left_slider : Z;       (* range 0..100, default 0 *)
  crop_top_slider : Z;        (* range 0..100, default 0 *)
  crop_right_slider : Z;      (* range 0..100, default 100 *)
  crop_bottom_slider : Z;     (* range 0..100, default 100 *)
  perspective_switch : bool;
  top_left_x_slider : Z;      (* the eight corner sliders: range -100..100 *)
  top_left_y_slider : Z;
  top_right_x_slider : Z;
  top_right_y_slider : Z;
  bottom_left_x_slider : Z;
  bottom_left_y_slider : Z;
  bottom_right_x_slider : Z;
  bottom_right_y_slider : Z
}.

(** The attributes of [ImageProcessor].  [original_image] holds the decoded
    image during a load and the cleaned single-channel baseline afterwards;
    [original_image_old] is the pre-cleanup copy, an attribute that exists
    only once a load has succeeded. *)
Record ImageProcessor := mk_processor {
  original_image : option ndarray;
  processed_image : option ndarray;
  original_image_path : option string;
  original_image_old : option ndarray;
  widgets : Widgets
}.

(** [ImageProcessor.__init__] *)
Definition init (ui : Widgets) : ImageProcessor :=
  mk_processor None None None None ui.

Definition set_original_image (v : option ndarray) (self : ImageProcessor) :=
  mk_processor v (processed_image self) (original_image_path self)
               (original_image_old self) (widgets self).
Definition set_processed_image (v : option ndarray) (self : ImageProcessor) :=
  mk_processor (original_image self) v (original_image_path self)
               (original_image_old self) (widgets self).
Definition set_original_image_path (v : option string) (self : ImageProcessor) :=
  mk_processor (original_image self) (processed_image self) v
               (original_image_old self) (widgets self).
Definition set_original_image_old (v : option ndarray) (self : ImageProcessor) :=
  mk_processor (original_image self) (processed_image self)
               (original_image_path self) v (widgets self).
Definition set_widgets (ui : Widgets) (self : ImageProcessor) :=
  mk_processor (original_image self) (processed_image self)
               (original_image_path self) (original_image_old self) ui.

(** How a call on the orchestrator ends: it returns, or an exception leaves
    it.  Either way the attributes are as the call left them: what was
    assigned before a raise stays assigned. *)
Inductive Outcome :=
| Returned (self : ImageProcessor)
| Raised (self : ImageProcessor).

Definition state_of (o : Outcome) : ImageProcessor :=
  match o with
  | Returned self => self
  | Raised self => self
  end.

(** [display_image(image, label)], lines 1041-1092: [true] when the call
    returns.  With an image it starts with [cv2.cvtColor(image,
    COLOR_BGR2RGB)] and [h, w, ch = rgb_image.shape]: the conversion takes an
    image with a channel axis that is not empty and raises on any other.
    The label it fills is not part of the model. *)
Definition display_image (image : option ndarray) : bool :=
  match image with
  | None => true
  | Some image => ndim3 image && (0 <? rows image) && (0 <? cols image)
  end.

(** A call that ends with [self.display_image(image, label)]. *)
Definition shown (image : option ndarray) (self : ImageProcessor) : Outcome :=
  if display_image image then Returned self else Raised self.

Section Orchestrator.
Context {cv : Cv2} {fs : FileSystem}.

(** The mask both cleanup sites build from a single-channel image:
    [adaptiveThreshold(gray, 255, GAUSSIAN_C, BINARY_INV, 25, 15)] dilated
    by the structuring element. *)
Definition cleanup_mask (gray : ndarray) : ndarray :=
  let binary :=
    adaptiveThreshold gray 255 ADAPTIVE_THRESH_GAUSSIAN_C THRESH_BINARY_INV 25 15 in
  let se := getStructuringElement MORPH_RECT (1, 1) in
  let se := morphologyEx se MORPH_CLOSE (2, 2) in
  dilate binary se.

(** The composite both cleanup sites apply:
    [cv2.add(cv2.bitwise_and(image, mask), cv2.bitwise_not(mask))]. *)
Definition composite (image mask : ndarray) : ndarray :=
  let mask1 := bitwise_not mask in
  let binary := bitwise_and image mask in
  cv_add binary mask1.

(** The cleanup of [load_image_from_path], lines 698-707. *)
Definition cleanup (decoded : ndarray) : ndarray :=
  let gray := cvtColor decoded COLOR_BGR2GRAY in
  composite gray (cleanup_mask gray).

(** Python's [a if a is not None else b], evaluated lazily. *)
Definition or_else {A} (a : option A) (b : option A) : option A :=
  match a with
  | Some _ => a
  | None => b
  end.

(** [load_image_from_path], lines 665-719.  The [try] of the source is
    commented out, so the call raises when the file cannot be opened and
    when one of its two [display_image] calls raises: line 693 on the
    decoded image, line 711 on the cleaned output.  The message box, the
    label texts and the save button (enabled at line 712, after the second
    display) are not part of the model. *)
Definition load_image_from_path (self : ImageProcessor) (file_path : string)
  : Outcome :=
  if String.eqb file_path EmptyString then Returned self
  else
    let self := set_original_image_path (Some file_path) self in
    match read_file file_path with
    | None => Raised self
    | Some buffer =>
      let self := set_original_image (imdecode buffer) self in
      let self :=
        match original_image self with
        | None => set_original_image (imread (abspath file_path)) self
        | Some _ => self
        end in
      let self :=
        match original_image self with
        | None => set_original_image (imread file_path) self
        | Some _ => self
        end in
      match original_image self with
      | Some decoded =>
        if display_image (original_image self) then
          let self := set_original_image_old (Some (copy decoded)) self in
          let baseline := cleanup decoded in
          let self := set_original_image (Some baseline) self in
          let self := set_processed_image (Some (copy baseline)) self in
          shown (processed_image self) self
        else Raised self
      | None => Returned self
      end
    end.

(** Truth value of a float in [any([...])]. *)
Definition truthy (x : Q) : bool := negb (Qeq_bool x 0).

(** The start of a recompute with the moire switch on, lines 785-807. *)
Definition moire_start (old : ndarray) : ndarray :=
  let processed := remove_moire old in
  let gray_image :=
    if ndim3 processed then cvtColor processed COLOR_BGR2GRAY else processed in
  let mask := cleanup_mask gray_image in
  let mask1 := bitwise_not mask in
  if ndim3 old && negb (ndim3 mask) then
    let mask_3ch := cvtColor_GRAY2BGR mask in
    let mask1_3ch := cvtColor_GRAY2BGR mask1 in
    let binary := bitwise_and old mask_3ch in
    cv_add binary mask1_3ch
  else
    let binary := bitwise_and old mask in
    cv_add binary mask1.

(** [update_processed_image], lines 733-844.  The call raises when the moire
    switch is on and [original_image_old] does not exist, and when its
    closing [display_image] of line 844 raises; by then the output is
    assigned. *)
Definition update_processed_image (self : ImageProcessor) : Outcome :=
  match original_image self with
  | None => Returned self
  | Some original =>
    let ui := widgets self in
    let contrast_value := (contrast_slider ui # 100)%Q in
    let brightness_value := brightness_slider ui in
    let sharpness_value := (sharpness_slider ui # 100)%Q in
    let blur_value := blur_slider ui in
    let rotate_value := rotate_slider ui in
    let top_left_x := (top_left_x_slider ui # 100)%Q in
    let top_left_y := (top_left_y_slider ui # 100)%Q in
    let top_right_x := (top_right_x_slider ui # 100)%Q in
    let top_right_y := (top_right_y_slider ui # 100)%Q in
    let bottom_left_x := (bottom_left_x_slider ui # 100)%Q in
    let bottom_left_y := (bottom_left_y_slider ui # 100)%Q in
    let bottom_right_x := (bottom_right_x_slider ui # 100)%Q in
    let bottom_right_y := (bottom_right_y_slider ui # 100)%Q in
    let crop_left := (crop_left_slider ui # 100)%Q in
    let crop_top := (crop_top_slider ui # 100)%Q in
    let crop_right := (crop_right_slider ui # 100)%Q in
    let crop_bottom := (crop_bottom_slider ui # 100)%Q in
    let start :=
      if moire_switch ui then
        match original_image_old self with
        | Some old => Some (moire_start old)
        | None => None
        end
      else Some (copy original) in
    match start with
    | None => Raised self
    | Some processed =>
      let processed :=
        if perspective_switch ui
           && existsb truthy [top_left_x; top_left_y; top_right_x; top_right_y;
                              bottom_left_x; bottom_left_y;
                              bottom_right_x; bottom_right_y]
        then apply_perspective_transform processed
               top_left_x top_left_y top_right_x top_right_y
               bottom_left_x bottom_left_y bottom_right_x bottom_right_y
        else processed in
      let processed :=
        if negb (rotate_value =? 0) then rotate_image processed rotate_value
        else processed in
      let processed :=
        if negb (Qeq_bool contrast_value 1) then adjust_contrast processed contrast_value
        else processed in
      let processed :=
        if negb (brightness_value =? 0) then adjust_brightness processed brightness_value
        else processed in
      let processed :=
        if Qlt_bool 0 sharpness_value then adjust_sharpness processed sharpness_value
        else processed in
      let processed :=
        if 0 <? blur_value then apply_blur processed blur_value
        else processed in
      let processed :=
        if crop_switch ui
           && (Qlt_bool 0 crop_left || Qlt_bool 0 crop_top
               || Qlt_bool crop_right 1 || Qlt_bool crop_bottom 1)
        then apply_crop processed crop_left crop_top crop_right crop_bottom
        else processed in
      let self := set_processed_image (Some processed) self in
      shown (processed_image self) self
    end
  end.

End Orchestrator.

(* ===================================================================== *)
(** ** The pipeline as the specification words it *)
(* ===================================================================== *)

(** The [ParameterSet] of the specification: the values the stages take. *)
Record ParameterSet := mk_parameters {
  contrast : Q;
  brightness : Z;
  sharpness : Q;
  blurRadius : Z;
  rotationAngle : Z;
  cornerOffsets : list Q;            (* tl.x tl.y tr.x tr.y bl.x bl.y br.x br.y *)
  cropRect : Q * Q * Q * Q;          (* left, top, right, bottom *)
  moireEnabled : bool;
  perspectiveEnabled : bool;
  cropEnabled : bool
}.

(** The parameter values the widgets stand for: the fractional sliders are
    hundredths. *)
Definition parameters (ui : Widgets) : ParameterSet :=
  let hundredth (v : Z) := (v # 100)%Q in
  mk_parameters
    (hundredth (contrast_slider ui))
    (brightness_slider ui)
    (hundredth (sharpness_slider ui))
    (blur_slider ui)
    (rotate_slider ui)
    (map hundredth
       [top_left_x_slider ui; top_left_y_slider ui;
        top_right_x_slider ui; top_right_y_slider ui;
        bottom_left_x_slider ui; bottom_left_y_slider ui;
        bottom_right_x_slider ui; bottom_right_y_slider ui])
    (hundredth (crop_left_slider ui), hundredth (crop_top_slider ui),
     hundredth (crop_right_slider ui), hundredth (crop_bottom_slider ui))
    (moire_switch ui)
    (perspective_switch ui)
    (crop_switch ui).

(** The ranges [setRange] gives the sliders. *)
Definition sliders_in_range (ui : Widgets) : Prop :=
  0 <= contrast_slider ui <= 200 /\
  -100 <= brightness_slider ui <= 100 /\
  0 <= sharpness_slider ui <= 100 /\
  0 <= blur_slider ui <= 20 /\
  -180 <= rotate_slider ui <= 180 /\
  0 <= crop_left_slider ui <= 100 /\
  0 <= crop_top_slider ui <= 100 /\
  0 <= crop_right_slider ui <= 100 /\
  0 <= crop_bottom_slider ui <= 100 /\
  Forall (fun v => -100 <= v <= 100)
    [top_left_x_slider ui; top_left_y_slider ui;
     top_right_x_slider ui; top_right_y_slider ui;
     bottom_left_x_slider ui; bottom_left_y_slider ui;
     bottom_right_x_slider ui; bottom_right_y_slider ui].

(** A stage of the pipeline: its condition and its transform. *)
Record Stage := mk_stage {
  gate : bool;
  transform : ndarray -> ndarray
}.

Definition run_stage (image : ndarray) (s : Stage) : ndarray :=
  if gate s then transform s image else image.

Definition is_full_frame (rect : Q * Q * Q * Q) : bool :=
  let '(l, t, r, b) := rect in
  Qeq_bool l 0 && Qeq_bool t 0 && Qeq_bool r 1 && Qeq_bool b 1.

Section SpecPipeline.
Context {cv : Cv2}.

(** Stages (2) to (8) of [recompute()], in the order of the specification. *)
Definition spec_stages (p : ParameterSet) : list Stage :=
  let off (k : nat) := nth k (cornerOffsets p) 0%Q in
  let '(l, t, r, b) := cropRect p in
  [ mk_stage (perspectiveEnabled p
              && negb (forallb (fun x => Qeq_bool x 0) (cornerOffsets p)))
             (fun img => apply_perspective_transform img
                           (off 0%nat) (off 1%nat) (off 2%nat) (off 3%nat)
                           (off 4%nat) (off 5%nat) (off 6%nat) (off 7%nat));
    mk_stage (negb (rotationAngle p =? 0))
             (fun img => rotate_image img (rotationAngle p));
    mk_stage (negb (Qeq_bool (contrast p) 1))
             (fun img => adjust_contrast img (contrast p));
    mk_stage (negb (brightness p =? 0))
             (fun img => adjust_brightness img (brightness p));
    mk_stage (Qlt_bool 0 (sharpness p))
             (fun img => adjust_sharpness img (sharpness p));
    mk_stage (0 <? blurRadius p)
             (fun img => apply_blur img (blurRadius p));
    mk_stage (cropEnabled p && negb (is_full_frame (cropRect p)))
             (fun img => apply_crop img l t r b) ].

(** Stage (1): the start image. *)
Definition spec_start (p : ParameterSet) (baseline preCleanup : ndarray) : ndarray :=
  if moireEnabled p then moire_start preCleanup else copy baseline.

(** [recompute()]: the stages folded, in order, over the start image. *)
Definition spec_recompute (p : ParameterSet) (baseline preCleanup : ndarray)
  : ndarray :=
  fold_left run_stage (spec_stages p) (spec_start p baseline preCleanup).

End SpecPipeline.

(** The brightness stage as the specification words it:
    [clamp(sample + offsetUnits*2.55, 0, 255)] on every sample. *)
Definition spec_brightness (image : ndarray) (offsetUnits : Z) : ndarray :=
  map_samples
    (fun s => clamp_u8 (inject_Z s + inject_Z offsetUnits * (255 # 100))) image.


Section SpecDenoise.
Context {cv : Cv2}.


End SpecDenoise.

(* ===================================================================== *)
(** ** What the program relies on from OpenCV *)
(* ===================================================================== *)

(** The shape of the sample storage: the number of samples of every pixel
    of every row. *)
Definition shape (img : ndarray) : list (list nat) :=
  map (map (@length Z)) (pixels img).

(** Every pixel has as many samples as the channel axis says. *)
Definition well_formed (img : ndarray) : Prop :=
  Forall (Forall (fun p : pixel => length p = if ndim3 img then 3%nat else 1%nat))
         (pixels img).

(** A mask holds only 0 and 255. *)
Definition binary_mask (img : ndarray) : Prop :=
  Forall (Forall (Forall (fun s => s = 0 \/ s = 255))) (pixels img).

(** The part of the contract of the OpenCV services that the properties
    below use: decoding with [IMREAD_COLOR] gives three channels, colour
    conversions give the channels of their target space, a threshold with
    [maxValue = 255] gives a mask of the shape of its input, and filters
    and warps keep the channels of their input. *)
Class Cv2Laws (cv : Cv2) : Prop := {
  imdecode_color : forall buffer img,
    imdecode buffer = Some img -> ndim3 img = true /\ well_formed img;
  imread_color : forall path img,
    imread path = Some img -> ndim3 img = true /\ well_formed img;
  gray_ndim : forall img, ndim3 (cvtColor img COLOR_BGR2GRAY) = false;
  gray_well_formed : forall img, well_formed (cvtColor img COLOR_BGR2GRAY);
  gray_u8 : forall img, u8_image (cvtColor img COLOR_BGR2GRAY);
  lab_ndim : forall img code,
    code <> COLOR_BGR2GRAY -> ndim3 img = true ->
    ndim3 (cvtColor img code) = true;
  lab_well_formed : forall img code,
    code <> COLOR_BGR2GRAY -> ndim3 img = true -> well_formed img ->
    well_formed (cvtColor img code);
  threshold_ndim : forall img v m t b c,
    ndim3 (adaptiveThreshold img v m t b c) = ndim3 img;
  threshold_shape : forall img v m t b c,
    shape (adaptiveThreshold img v m t b c) = shape img;
  threshold_binary : forall img m t b c,
    binary_mask (adaptiveThreshold img 255 m t b c);
  dilate_ndim : forall img se, ndim3 (dilate img se) = ndim3 img;
  dilate_shape : forall img se, shape (dilate img se) = shape img;
  dilate_binary : forall img se, binary_mask img -> binary_mask (dilate img se);
  blur_ndim : forall img ksize sigma,
    ndim3 (GaussianBlur img ksize sigma) = ndim3 img;
  blur_shape : forall img ksize sigma,
    shape (GaussianBlur img ksize sigma) = shape img;
  blur_u8 : forall img ksize sigma, u8_image (GaussianBlur img ksize sigma);
  bilateral_ndim : forall img d sc ss,
    ndim3 (bilateralFilter img d sc ss) = ndim3 img;
  bilateral_shape : forall img d sc ss,
    shape (bilateralFilter img d sc ss) = shape img;
  warpAffine_ndim : forall img M dsize,
    ndim3 (warpAffine img M dsize) = ndim3 img;
  warpAffine_well_formed : forall img M dsize,
    well_formed img -> well_formed (warpAffine img M dsize);
  warpPerspective_ndim : forall img M dsize,
    ndim3 (warpPerspective img M dsize) = ndim3 img;
  warpPerspective_well_formed : forall img M dsize,
    well_formed img -> well_formed (warpPerspective img M dsize)
}.

(* ===================================================================== *)
(** ** Statements of the specification that the code does not meet,
       and notions the properties use *)
(* ===================================================================== *)

(** What the crop example of the specification says of every image:
    [crop(0.9, 0.1, 0.2, 0.9)] keeps every column and exactly the rows from
    [floor(0.1*height)] to [floor(0.9*height)]. *)
Definition crop_example_claim : Prop :=
  forall image : ndarray,
    rectangular (cols image) image ->
    pixels (apply_crop image (9 # 10) (1 # 10) (2 # 10) (9 # 10)) =
    py_slice (pixels image)
             (Qfloor (inject_Z (rows image) * (1 # 10)))
             (Qfloor (inject_Z (rows image) * (9 # 10))).

(** What the specification says of a load whose bytes do not decode: the
    orchestrator is left as it was. *)
Definition failed_load_keeps_state (cv : Cv2) (fs : FileSystem) : Prop :=
  forall (self : ImageProcessor) (file_path : string) (buffer : list Byte.byte),
    file_path <> EmptyString ->
    read_file file_path = Some buffer ->
    imdecode buffer = None ->
    imread (abspath file_path) = None ->
    imread file_path = None ->
    load_image_from_path self file_path = Returned self.

(** The array has a channel axis exactly when [color] is set, and every
    pixel has three samples in that case and one otherwise. *)
Definition has_channels (color : bool) (img : ndarray) : Prop :=
  ndim3 img = color /\ well_formed img.



(** The angle of the rotation matrix, in radians. *)
Definition radians (angle : Z) : R := (IZR angle * PI / 180)%R.

(** The extents of the rotated frame:
    [h*|sin| + w*|cos|] and [h*|cos| + w*|sin|]. *)
Definition rotated_width (w h angle : Z) : R :=
  (IZR h * Rabs (sin (radians angle)) + IZR w * Rabs (cos (radians angle)))%R.
Definition rotated_height (w h angle : Z) : R :=
  (IZR h * Rabs (cos (radians angle)) + IZR w * Rabs (sin (radians angle)))%R.

(** [z] is an integer nearest to [x]. *)
Definition nearest (z : Z) (x : R) : Prop := (Rabs (x - IZR z) <= 1 / 2)%R.

(** What the specification says of the canvas: its sides are the extents
    rounded to nearest. *)
Definition canvas_is_rounded : Prop :=
  forall w h angle : Z,
    0 < w -> 0 < h -> angle <> 0 ->
    let '(new_width, new_height) :=
      rotated_canvas w h (getRotationMatrix2D (w / 2, h / 2) angle 1) in
    nearest new_width (rotated_width w h angle) /\
    nearest new_height (rotated_height w h angle).

(* ===================================================================== *)
(** ** A small instance of the services, to run the program on examples *)
(* ===================================================================== *)

Module Reference.

(** A canvas of [h] rows and [w] columns of white pixels. *)
Definition white_canvas (color : bool) (w h : Z) : ndarray :=
  mk_ndarray color
    (repeat (repeat (repeat 255 (if color then 3%nat else 1%nat)) (Z.to_nat w))
            (Z.to_nat h)).

(** A decoder of a toy format: one row of BGR triples, one byte a sample;
    an empty buffer or a trailing partial pixel does not decode. *)
Fixpoint triples (l : list Byte.byte) : option (list pixel) :=
  match l with
  | [] => Some []
  | b :: g :: r :: t =>
      match triples t with
      | Some ps =>
          Some ([Z.of_N (Byte.to_N b); Z.of_N (Byte.to_N g); Z.of_N (Byte.to_N r)]
                  :: ps)
      | None => None
      end
  | _ => None
  end.

Definition decode (buffer : list Byte.byte) : option ndarray :=
  match buffer, triples buffer with
  | _ :: _, Some ps => Some (mk_ndarray true [ps])
  | _, _ => None
  end.

(** Two files: one that decodes and one that does not. *)
Definition files (path : string) : option (list Byte.byte) :=
  if String.eqb path "scan.png" then
    Some [Byte.x0a; Byte.x14; Byte.x1e; Byte.xc8; Byte.xd2; Byte.xdc]
  else if String.eqb path "broken.png" then
    Some [Byte.x0a; Byte.x14]
  else None.

#[export] Instance ref_fs : FileSystem := {
  read_file := files;
  abspath := fun p => p
}.

(** Smoothing with the normalised 3x3 binomial kernel. *)
Definition binomial3 : list (list Q) :=
  [[1 # 16; 2 # 16; 1 # 16]; [2 # 16; 4 # 16; 2 # 16]; [1 # 16; 2 # 16; 1 # 16]]%Q.

#[export] Instance ref_cv2 : Cv2 := {
  imdecode := decode;
  imread := fun path =>
    match files path with
    | Some buffer => decode buffer
    | None => None
    end;
  cvtColor := fun img code =>
    match code with
    | COLOR_BGR2GRAY =>
        mk_ndarray false
          (map (map (fun p =>
             [saturate_cast (inject_Z (nth 0 p 0) * (114 # 1000)
                             + inject_Z (nth 1 p 0) * (587 # 1000)
                             + inject_Z (nth 2 p 0) * (299 # 1000))]))
             (pixels img))
    | COLOR_BGR2LAB | COLOR_LAB2BGR => img
    end;
  adaptiveThreshold := fun img maxValue _ _ _ C =>
    map_samples (fun s => if s <=? 128 - C then maxValue else 0) img;
  getStructuringElement := fun _ ksize =>
    mk_ndarray false
      (repeat (repeat [1] (Z.to_nat (fst ksize))) (Z.to_nat (snd ksize)));
  morphologyEx := fun src _ _ => src;
  dilate := fun src _ => src;
  GaussianBlur := fun img _ _ => filter2D img binomial3;
  bilateralFilter := fun img _ _ _ => img;
  warpAffine := fun img _ dsize => white_canvas (ndim3 img) (fst dsize) (snd dsize);
  getPerspectiveTransform := fun _ _ =>
    [[1; 0; 0]; [0; 1; 0]; [0; 0; 1]]%Q;
  warpPerspective := fun img _ dsize =>
    white_canvas (ndim3 img) (fst dsize) (snd dsize)
}.

(** The widgets at their defaults. *)
Definition default_widgets : Widgets :=
  mk_widgets 100 0 0 0 0 false false 0 0 100 100 false 0 0 0 0 0 0 0 0.

End Reference.


(* ===================================================================== *)
(** ** Widget updates and [reset_parameters] *)
(* ===================================================================== *)

(** The widgets with one of them set to [v]. *)

Definition with_contrast_slider (v : Z) (ui : Widgets) : Widgets :=
  mk_widgets v (brightness_slider ui) (sharpness_slider ui) (blur_slider ui)
    (rotate_slider ui) (moire_switch ui) (crop_switch ui)
    (crop_left_slider ui) (crop_top_slider ui) (crop_right_slider ui)
    (crop_bottom_slider ui) (perspective_switch ui) (top_left_x_slider ui)
    (top_left_y_slider ui) (top_right_x_slider ui) (top_right_y_slider ui)
    (bottom_left_x_slider ui) (bottom_left_y_slider ui)
    (bottom_right_x_slider ui) (bottom_right_y_slider ui).

Definition with_brightness_slider (v : Z) (ui : Widgets) : Widgets :=
  mk_widgets (contrast_slider ui) v (sharpness_slider ui) (blur_slider ui)
    (rotate_slider ui) (moire_switch ui) (crop_switch ui)
    (crop_left_slider ui) (crop_top_slider ui) (crop_right_slider ui)
    (crop_bottom_slider ui) (perspective_switch ui) (top_left_x_slider ui)
    (top_left_y_slider ui) (top_right_x_slider ui) (top_right_y_slider ui)
    (bottom_left_x_slider ui) (bottom_left_y_slider ui)
    (bottom_right_x_slider ui) (bottom_right_y_slider ui).

Definition with_sharpness_slider (v : Z) (ui : Widgets) : Widgets :=
  mk_widgets (contrast_slider ui) (brightness_slider ui) v (blur_slider ui)
    (rotate_slider ui) (moire_switch ui) (crop_switch ui)
    (crop_left_slider ui) (crop_top_slider ui) (crop_right_slider ui)
    (crop_bottom_slider ui) (perspective_switch ui) (top_left_x_slider ui)
    (top_left_y_slider ui) (top_right_x_slider ui) (top_right_y_slider ui)
    (bottom_left_x_slider ui) (bottom_left_y_slider ui)
    (bottom_right_x_slider ui) (bottom_right_y_slider ui).

Definition with_blur_slider (v : Z) (ui : Widgets) : Widgets :=
  mk_widgets (contrast_slider ui) (brightness_slider ui) (sharpness_slider ui)
    v (rotate_slider ui) (moire_switch ui) (crop_switch ui)
    (crop_left_slider ui) (crop_top_slider ui) (crop_right_slider ui)
    (crop_bottom_slider ui) (perspective_switch ui) (top_left_x_slider ui)
    (top_left_y_slider ui) (top_right_x_slider ui) (top_right_y_slider ui)
    (bottom_left_x_slider ui) (bottom_left_y_slider ui)
    (bottom_right_x_slider ui) (bottom_right_y_slider ui).

Definition with_rotate_slider (v : Z) (ui : Widgets) : Widgets :=
  mk_widgets (contrast_slider ui) (brightness_slider ui) (sharpness_slider ui)
    (blur_slider ui) v (moire_switch ui) (crop_switch ui)
    (crop_left_slider ui) (crop_top_slider ui) (crop_right_slider ui)
    (crop_bottom_slider ui) (perspective_switch ui) (top_left_x_slider ui)
    (top_left_y_slider ui) (top_right_x_slider ui) (top_right_y_slider ui)
    (bottom_left_x_slider ui) (bottom_left_y_slider ui)
    (bottom_right_x_slider ui) (bottom_right_y_slider ui).

Definition with_moire_switch (v : bool) (ui : Widgets) : Widgets :=
  mk_widgets (contrast_slider ui) (brightness_slider ui) (sharpness_slider ui)
    (blur_slider ui) (rotate_slider ui) v (crop_switch ui)
    (crop_left_slider ui) (crop_top_slider ui) (crop_right_slider ui)
    (crop_bottom_slider ui) (perspective_switch ui) (top_left_x_slider ui)
    (top_left_y_slider ui) (top_right_x_slider ui) (top_right_y_slider ui)
    (bottom_left_x_slider ui) (bottom_left_y_slider ui)
    (bottom_right_x_slider ui) (bottom_right_y_slider ui).

Definition with_crop_switch (v : bool) (ui : Widgets) : Widgets :=
  mk_widgets (contrast_slider ui) (brightness_slider ui) (sharpness_slider ui)
    (blur_slider ui) (rotate_slider ui) (moire_switch ui) v
    (crop_left_slider ui) (crop_top_slider ui) (crop_right_slider ui)
    (crop_bottom_slider ui) (perspective_switch ui) (top_left_x_slider ui)
    (top_left_y_slider ui) (top_right_x_slider ui) (top_right_y_slider ui)
    (bottom_left_x_slider ui) (bottom_left_y_slider ui)
    (bottom_right_x_slider ui) (bottom_right_y_slider ui).

Definition with_crop_left_slider (v : Z) (ui : Widgets) : Widgets :=
  mk_widgets (contrast_slider ui) (brightness_slider ui) (sharpness_slider ui)
    (blur_slider ui) (rotate_slider ui) (moire_switch ui) (crop_switch ui) v
    (crop_top_slider ui) (crop_right_slider ui) (crop_bottom_slider ui)
    (perspective_switch ui) (top_left_x_slider ui) (top_left_y_slider ui)
    (top_right_x_slider ui) (top_right_y_slider ui) (bottom_left_x_slider ui)
    (bottom_left_y_slider ui) (bottom_right_x_slider ui)
    (bottom_right_y_slider ui).

Definition with_crop_top_slider (v : Z) (ui : Widgets) : Widgets :=
  mk_widgets (contrast_slider ui) (brightness_slider ui) (sharpness_slider ui)
    (blur_slider ui) (rotate_slider ui) (moire_switch ui) (crop_switch ui)
    (crop_left_slider ui) v (crop_right_slider ui) (crop_bottom_slider ui)
    (perspective_switch ui) (top_left_x_slider ui) (top_left_y_slider ui)
    (top_right_x_slider ui) (top_right_y_slider ui) (bottom_left_x_slider ui)
    (bottom_left_y_slider ui) (bottom_right_x_slider ui)
    (bottom_right_y_slider ui).

Definition with_crop_right_slider (v : Z) (ui : Widgets) : Widgets :=
  mk_widgets (contrast_slider ui) (brightness_slider ui) (sharpness_slider ui)
    (blur_slider ui) (rotate_slider ui) (moire_switch ui) (crop_switch ui)
    (crop_left_slider ui) (crop_top_slider ui) v (crop_bottom_slider ui)
    (perspective_switch ui) (top_left_x_slider ui) (top_left_y_slider ui)
    (top_right_x_slider ui) (top_right_y_slider ui) (bottom_left_x_slider ui)
    (bottom_left_y_slider ui) (bottom_right_x_slider ui)
    (bottom_right_y_slider ui).

Definition with_crop_bottom_slider (v : Z) (ui : Widgets) : Widgets :=
  mk_widgets (contrast_slider ui) (brightness_slider ui) (sharpness_slider ui)
    (blur_slider ui) (rotate_slider ui) (moire_switch ui) (crop_switch ui)
    (crop_left_slider ui) (crop_top_slider ui) (crop_right_slider ui) v
    (perspective_switch ui) (top_left_x_slider ui) (top_left_y_slider ui)
    (top_right_x_slider ui) (top_right_y_slider ui) (bottom_left_x_slider ui)
    (bottom_left_y_slider ui) (bottom_right_x_slider ui)
    (bottom_right_y_slider ui).

Definition with_perspective_switch (v : bool) (ui : Widgets) : Widgets :=
  mk_widgets (contrast_slider ui) (brightness_slider ui) (sharpness_slider ui)
    (blur_slider ui) (rotate_slider ui) (moire_switch ui) (crop_switch ui)
    (crop_left_slider ui) (crop_top_slider ui) (crop_right_slider ui)
    (crop_bottom_slider ui) v (top_left_x_slider ui) (top_left_y_slider ui)
    (top_right_x_slider ui) (top_right_y_slider ui) (bottom_left_x_slider ui)
    (bottom_left_y_slider ui) (bottom_right_x_slider ui)
    (bottom_right_y_slider ui).

Definition with_top_left_x_slider (v : Z) (ui : Widgets) : Widgets :=
  mk_widgets (contrast_slider ui) (brightness_slider ui) (sharpness_slider ui)
    (blur_slider ui) (rotate_slider ui) (moire_switch ui) (crop_switch ui)
    (crop_left_slider ui) (crop_top_slider ui) (crop_right_slider ui)
    (crop_bottom_slider ui) (perspective_switch ui) v (top_left_y_slider ui)
    (top_right_x_slider ui) (top_right_y_slider ui) (bottom_left_x_slider ui)
    (bottom_left_y_slider ui) (bottom_right_x_slider ui)
    (bottom_right_y_slider ui).

Definition with_top_left_y_slider (v : Z) (ui : Widgets) : Widgets :=
  mk_widgets (contrast_slider ui) (brightness_slider ui) (sharpness_slider ui)
    (blur_slider ui) (rotate_slider ui) (moire_switch ui) (crop_switch ui)
    (crop_left_slider ui) (crop_top_slider ui) (crop_right_slider ui)
    (crop_bottom_slider ui) (perspective_switch ui) (top_left_x_slider ui) v
    (top_right_x_slider ui) (top_right_y_slider ui) (bottom_left_x_slider ui)
    (bottom_left_y_slider ui) (bottom_right_x_slider ui)
    (bottom_right_y_slider ui).

Definition with_top_right_x_slider (v : Z) (ui : Widgets) : Widgets :=
  mk_widgets (contrast_slider ui) (brightness_slider ui) (sharpness_slider ui)
    (blur_slider ui) (rotate_slider ui) (moire_switch ui) (crop_switch ui)
    (crop_left_slider ui) (crop_top_slider ui) (crop_right_slider ui)
    (crop_bottom_slider ui) (perspective_switch ui) (top_left_x_slider ui)
    (top_left_y_slider ui) v (top_right_y_slider ui) (bottom_left_x_slider ui)
    (bottom_left_y_slider ui) (bottom_right_x_slider ui)
    (bottom_right_y_slider ui).

Definition with_top_right_y_slider (v : Z) (ui : Widgets) : Widgets :=
  mk_widgets (contrast_slider ui) (brightness_slider ui) (sharpness_slider ui)
    (blur_slider ui) (rotate_slider ui) (moire_switch ui) (crop_switch ui)
    (crop_left_slider ui) (crop_top_slider ui) (crop_right_slider ui)
    (crop_bottom_slider ui) (perspective_switch ui) (top_left_x_slider ui)
    (top_left_y_slider ui) (top_right_x_slider ui) v (bottom_left_x_slider ui)
    (bottom_left_y_slider ui) (bottom_right_x_slider ui)
    (bottom_right_y_slider ui).

Definition with_bottom_left_x_slider (v : Z) (ui : Widgets) : Widgets :=
  mk_widgets (contrast_slider ui) (brightness_slider ui) (sharpness_slider ui)
    (blur_slider ui) (rotate_slider ui) (moire_switch ui) (crop_switch ui)
    (crop_left_slider ui) (crop_top_slider ui) (crop_right_slider ui)
    (crop_bottom_slider ui) (perspective_switch ui) (top_left_x_slider ui)
    (top_left_y_slider ui) (top_right_x_slider ui) (top_right_y_slider ui) v
    (bottom_left_y_slider ui) (bottom_right_x_slider ui)
    (bottom_right_y_slider ui).

Definition with_bottom_left_y_slider (v : Z) (ui : Widgets) : Widgets :=
  mk_widgets (contrast_slider ui) (brightness_slider ui) (sharpness_slider ui)
    (blur_slider ui) (rotate_slider ui) (moire_switch ui) (crop_switch ui)
    (crop_left_slider ui) (crop_top_slider ui) (crop_right_slider ui)
    (crop_bottom_slider ui) (perspective_switch ui) (top_left_x_slider ui)
    (top_left_y_slider ui) (top_right_x_slider ui) (top_right_y_slider ui)
    (bottom_left_x_slider ui) v (bottom_right_x_slider ui)
    (bottom_right_y_slider ui).

Definition with_bottom_right_x_slider (v : Z) (ui : Widgets) : Widgets :=
  mk_widgets (contrast_slider ui) (brightness_slider ui) (sharpness_slider ui)
    (blur_slider ui) (rotate_slider ui) (moire_switch ui) (crop_switch ui)
    (crop_left_slider ui) (crop_top_slider ui) (crop_right_slider ui)
    (crop_bottom_slider ui) (perspective_switch ui) (top_left_x_slider ui)
    (top_left_y_slider ui) (top_right_x_slider ui) (top_right_y_slider ui)
    (bottom_left_x_slider ui) (bottom_left_y_slider ui) v
    (bottom_right_y_slider ui).

Definition with_bottom_right_y_slider (v : Z) (ui : Widgets) : Widgets :=
  mk_widgets (contrast_slider ui) (brightness_slider ui) (sharpness_slider ui)
    (blur_slider ui) (rotate_slider ui) (moire_switch ui) (crop_switch ui)
    (crop_left_slider ui) (crop_top_slider ui) (crop_right_slider ui)
    (crop_bottom_slider ui) (perspective_switch ui) (top_left_x_slider ui)
    (top_left_y_slider ui) (top_right_x_slider ui) (top_right_y_slider ui)
    (bottom_left_x_slider ui) (bottom_left_y_slider ui)
    (bottom_right_x_slider ui) v.

(** Sequencing of calls that may raise: a raise ends the sequence. *)
Definition and_then (a : Outcome) (f : ImageProcessor -> Outcome) : Outcome :=
  match a with
  | Returned self => f self
  | Raised self => Raised self
  end.

Notation "x <- a ;; b" := (and_then a (fun x => b))
  (at level 61, a at next level, right associativity).

Section Signals.
Context {cv : Cv2}.

(** [slider.setValue(v)] on a slider whose [valueChanged] signal is
    connected to [update_processed_image]: the slider takes the value and,
    when that changes it, the slot runs. *)
Definition setValue (get : Widgets -> Z) (put : Z -> Widgets -> Widgets)
    (v : Z) (self : ImageProcessor) : Outcome :=
  if get (widgets self) =? v then Returned self
  else update_processed_image (set_widgets (put v (widgets self)) self).

(** [switch.setChecked(v)] on a check box whose [stateChanged] signal is
    connected to [update_processed_image]. *)
Definition setChecked (get : Widgets -> bool) (put : bool -> Widgets -> Widgets)
    (v : bool) (self : ImageProcessor) : Outcome :=
  if Bool.eqb (get (widgets self)) v then Returned self
  else update_processed_image (set_widgets (put v (widgets self)) self).

(** [reset_parameters], lines 1094-1129: the twenty widgets in the order of
    the source, then the output is set back to the baseline and displayed.
    The call raises when a slot does, and when its closing [display_image]
    of line 1129 does. *)
Definition reset_parameters (self : ImageProcessor) : Outcome :=
  self <- setValue contrast_slider with_contrast_slider 100 self ;;
  self <- setValue brightness_slider with_brightness_slider 0 self ;;
  self <- setValue sharpness_slider with_sharpness_slider 0 self ;;
  self <- setValue blur_slider with_blur_slider 0 self ;;
  self <- setValue rotate_slider with_rotate_slider 0 self ;;
  self <- setValue top_left_x_slider with_top_left_x_slider 0 self ;;
  self <- setValue top_left_y_slider with_top_left_y_slider 0 self ;;
  self <- setValue top_right_x_slider with_top_right_x_slider 0 self ;;
  self <- setValue top_right_y_slider with_top_right_y_slider 0 self ;;
  self <- setValue bottom_left_x_slider with_bottom_left_x_slider 0 self ;;
  self <- setValue bottom_left_y_slider with_bottom_left_y_slider 0 self ;;
  self <- setValue bottom_right_x_slider with_bottom_right_x_slider 0 self ;;
  self <- setValue bottom_right_y_slider with_bottom_right_y_slider 0 self ;;
  self <- setChecked perspective_switch with_perspective_switch false self ;;
  self <- setValue crop_left_slider with_crop_left_slider 0 self ;;
  self <- setValue crop_top_slider with_crop_top_slider 0 self ;;
  self <- setValue crop_right_slider with_crop_right_slider 100 self ;;
  self <- setValue crop_bottom_slider with_crop_bottom_slider 100 self ;;
  self <- setChecked crop_switch with_crop_switch false self ;;
  self <- setChecked moire_switch with_moire_switch false self ;;
  match original_image self with
  | Some original =>
    let self := set_processed_image (Some (copy original)) self in
    shown (processed_image self) self
  | None => Returned self
  end.

End Signals.

(** The buffers the orchestrator keeps between recomputes. *)
Definition buffers (self : ImageProcessor)
  : option ndarray * option ndarray * option string :=
  (original_image self, original_image_old self, original_image_path self).

(* ===================================================================== *)
(** ** The size an image is displayed at *)
(* ===================================================================== *)

(** Python's [min(a, b)] on floats: [b] when it is smaller, else [a]. *)
Definition py_min2 (a b : Q) : Q := if Qlt_bool b a then b else a.

(** The size [(final_width, final_height)] that [display_image] (lines
    1064-1080) and [resizeEvent] (lines 29-48) scale the pixmap to, for a
    label of the given size and an image of [w] columns and [h] rows.  The
    result is [None] when a division by zero raises. *)
Definition display_size (label_w label_h w h : Z) : option (Z * Z) :=
  let label_width := label_w - 20 in
  let label_height := label_h - 20 in
  let display_width := Z.max label_width 200 in
  let display_height := Z.max label_height 200 in
  if (w =? 0) || (h =? 0) then None
  else
    let width_ratio := (inject_Z display_width / inject_Z w)%Q in
    let height_ratio := (inject_Z display_height / inject_Z h)%Q in
    let scale_ratio := py_min2 width_ratio height_ratio in
    let final_width := py_int (inject_Z w * scale_ratio) in
    let final_height := py_int (inject_Z h * scale_ratio) in
    Some (final_width, final_height).

(* ===================================================================== *)
(** ** The canvas of the perspective warp *)
(* ===================================================================== *)

(** The destination points of [apply_perspective_transform], lines 893-901,
    for a frame of [width] columns and [height] rows. *)
Definition perspective_dst_points (width height : Q)
    (top_left_x top_left_y top_right_x top_right_y
     bottom_left_x bottom_left_y bottom_right_x bottom_right_y : Q)
  : list (Q * Q) :=
  let offset_x_factor := (width * (1 # 2))%Q in
  let offset_y_factor := (height * (1 # 2))%Q in
  [(0 + top_left_x * offset_x_factor, 0 + top_left_y * offset_y_factor);
   (width - 1 + top_right_x * offset_x_factor, 0 + top_right_y * offset_y_factor);
   (0 + bottom_left_x * offset_x_factor, height - 1 + bottom_left_y * offset_y_factor);
   (width - 1 + bottom_right_x * offset_x_factor,
    height - 1 + bottom_right_y * offset_y_factor)]%Q.

(** The canvas [(new_width, new_height)] of lines 908-914: the truncated
    extents of the bounding box of the destination points. *)
Definition perspective_canvas (dst_points : list (Q * Q)) : Z * Z :=
  let min_x := py_min (map fst dst_points) in
  let max_x := py_max (map fst dst_points) in
  let min_y := py_min (map snd dst_points) in
  let max_y := py_max (map snd dst_points) in
  (py_int (max_x - min_x), py_int (max_y - min_y)).

(** The pixel of row [i], column [j]. *)
Definition pixel_at (img : ndarray) (i j : nat) : option pixel :=
  match nth_error (pixels img) i with
  | Some row => nth_error row j
  | None => None
  end.

(** An image whose pixels are all [p]. *)
Definition flat_image (color : bool) (p : pixel) (w h : nat) : ndarray :=
  mk_ndarray color (repeat (repeat p w) h).

(* ===================================================================== *)
(** ** File names: [is_image_file] and the names [save_image] derives *)
(* ===================================================================== *)

(** Paths are strings of one-byte characters with [/] as separator (the
    functions of [os.path] are those of [posixpath]); the digits of the
    regular expression are the ASCII digits. *)

(** The parts of [s] before and after the last occurrence of [c]
    ([s.rfind(c)]); [None] when [c] does not occur. *)
Fixpoint rsplit_char (c : Ascii.ascii) (s : string) : option (string * string) :=
  match s with
  | EmptyString => None
  | String a t =>
      match rsplit_char c t with
      | Some (h, tl) => Some (String a h, tl)
      | None => if Ascii.eqb a c then Some (EmptyString, t) else None
      end
  end.

Fixpoint all_chars (c : Ascii.ascii) (s : string) : bool :=
  match s with
  | EmptyString => true
  | String a t => Ascii.eqb a c && all_chars c t
  end.

(** [os.path.basename] *)
Definition basename (p : string) : string :=
  match rsplit_char "/"%char p with
  | Some (_, tl) => tl
  | None => p
  end.

(** [os.path.splitext] on a name without separator: the extension starts
    at the last dot, unless only dots come before it. *)
Definition splitext (name : string) : string * string :=
  match rsplit_char "."%char name with
  | Some (stem, tl) =>
      if all_chars "."%char stem then (name, EmptyString)
      else (stem, String "."%char tl)
  | None => (name, EmptyString)
  end.

(** [os.path.splitext] on a path: the extension is looked for in the part
    after the last separator. *)
Definition splitext_path (p : string) : string * string :=
  match rsplit_char "/"%char p with
  | Some (dir, name) =>
      let '(stem, ext) := splitext name in
      ((dir ++ String "/"%char stem)%string, ext)
  | None => splitext p
  end.

(** [str.lower] on one-byte characters. *)
Definition lower_char (a : Ascii.ascii) : Ascii.ascii :=
  let n := Ascii.nat_of_ascii a in
  if ((65 <=? n) && (n <=? 90))%nat then Ascii.ascii_of_nat (n + 32) else a.

Fixpoint lower (s : string) : string :=
  match s with
  | EmptyString => EmptyString
  | String a t => String (lower_char a) (lower t)
  end.

(** [x in list] for strings. *)
Definition string_in (x : string) (l : list string) : bool :=
  existsb (String.eqb x) l.

(** [is_image_file] *)
Definition is_image_file (file_path : string) : bool :=
  let image_extensions :=
    [".png"; ".jpg"; ".jpeg"; ".bmp"; ".gif"; ".tiff"; ".tif"; ".webp"]%string in
  let file_ext := lower (snd (splitext_path file_path)) in
  string_in file_ext image_extensions.

Definition is_digit (a : Ascii.ascii) : bool :=
  let n := Ascii.nat_of_ascii a in ((48 <=? n) && (n <=? 57))%nat.

(** [s] starts with [n] digits; the rest of [s] after them. *)
Fixpoint digits (n : nat) (s : string) : option string :=
  match n, s with
  | O, _ => Some s
  | S n', String a t => if is_digit a then digits n' t else None
  | S _, EmptyString => None
  end.

(** [s] starts with an underscore, eight digits, an underscore and six
    digits; the rest of [s] after these sixteen characters. *)
Definition timestamp_tail (s : string) : option string :=
  match s with
  | String a t =>
      if Ascii.eqb a "_" then
        match digits 8 t with
        | Some (String b u) => if Ascii.eqb b "_" then digits 6 u else None
        | _ => None
        end
      else None
  | EmptyString => None
  end.

(** The regular expression [_\d{8}_\d{6}$] matches at the start of [s]:
    the sixteen characters, then the end of the string or a last newline. *)
Definition timestamp_here (s : string) : bool :=
  match timestamp_tail s with
  | Some rest =>
      String.eqb rest EmptyString
      || String.eqb rest (String "010"%char EmptyString)
  | None => false
  end.

(** [re.search(r'_\d{8}_\d{6}$', s)] finds a match. *)
Fixpoint has_timestamp (s : string) : bool :=
  timestamp_here s ||
  match s with
  | EmptyString => false
  | String _ t => has_timestamp t
  end.

(** The text [strftime("_%Y%m%d_%H%M%S")] gives for a four-digit year:
    an underscore, eight digits, an underscore, six digits. *)
Definition timestamp_shaped (ts : string) : Prop :=
  timestamp_tail ts = Some EmptyString.


(** [s.rstrip(c)] *)
Fixpoint rstrip_char (c : Ascii.ascii) (s : string) : string :=
  match s with
  | EmptyString => EmptyString
  | String a t =>
      match rstrip_char c t with
      | EmptyString => if Ascii.eqb a c then EmptyString else String a EmptyString
      | t' => String a t'
      end
  end.

(** [os.path.dirname]: the part up to the last separator, without its
    trailing separators unless it holds nothing else. *)
Definition dirname (p : string) : string :=
  match rsplit_char "/"%char p with
  | Some (h, _) =>
      let head := (h ++ String "/"%char EmptyString)%string in
      if all_chars "/"%char head then head else rstrip_char "/"%char head
  | None => EmptyString
  end.

(** [s.endswith(c)] *)
Fixpoint ends_with_char (c : Ascii.ascii) (s : string) : bool :=
  match s with
  | EmptyString => false
  | String a t =>
      match t with
      | EmptyString => Ascii.eqb a c
      | String _ _ => ends_with_char c t
      end
  end.

(** [s.startswith(pre)] *)
Fixpoint starts_with (pre s : string) : bool :=
  match pre, s with
  | EmptyString, _ => true
  | String a p, String b t => Ascii.eqb a b && starts_with p t
  | String _ _, EmptyString => false
  end.

(** [os.path.join(a, b)] *)
Definition join (a b : string) : string :=
  if starts_with (String "/"%char EmptyString) b then b
  else if String.eqb a EmptyString || ends_with_char "/"%char a
       then (a ++ b)%string
       else (a ++ String "/"%char b)%string.

(** [s.replace(old, new)] for [old] not empty: the occurrences of [old]
    are taken from the left and do not overlap.  [skip] counts the
    characters of [s] that belong to the occurrence just replaced. *)
Fixpoint replace_from (old new : string) (skip : nat) (s : string) : string :=
  match s with
  | EmptyString => EmptyString
  | String a t =>
      match skip with
      | S k => replace_from old new k t
      | O =>
          if starts_with old s
          then (new ++ replace_from old new (String.length old - 1) t)%string
          else String a (replace_from old new 0 t)
      end
  end.

(** With [old] empty, [new] goes before every character and at the end. *)
Fixpoint intersperse (new s : string) : string :=
  match s with
  | EmptyString => new
  | String a t => (new ++ String a (intersperse new t))%string
  end.

(** [s.replace(old, new)] *)
Definition replace (old new s : string) : string :=
  if String.eqb old EmptyString then intersperse new s
  else replace_from old new 0 s.

(** The parameter list [save_image] gives to [cv2.imencode]. *)
Inductive EncodeParam :=
| IMWRITE_JPEG_QUALITY (quality : Z)
| IMWRITE_PNG_COMPRESSION (level : Z).

(** The value of [new_file_name], lines 1162-1178, for the base name
    [file_name] of the path the dialog returned. *)
Definition new_file_name (file_name timestamp : string) : string :=
  let '(name_without_ext, file_ext) := splitext file_name in
  let '(file_ext, file_name) :=
    if String.eqb file_ext EmptyString
    then (".png"%string, (name_without_ext ++ ".png")%string)
    else (file_ext, file_name) in
  if negb (has_timestamp name_without_ext)
  then (name_without_ext ++ timestamp ++ file_ext)%string
  else file_name.

(** What [save_image] writes for the path [file_path] that the dialog
    returned (not empty), lines 1160-1197: the path [new_file_path] the
    bytes go to (the fallback of lines 1205-1206 writes to its absolute
    form), the extension given to [cv2.imencode], and the encoder
    parameter. *)
Definition save_target (file_path timestamp : string)
  : string * string * EncodeParam :=
  let file_dir := dirname file_path in
  let file_name := basename file_path in
  let '(name_without_ext, file_ext) := splitext file_name in
  let '(file_ext, file_name) :=
    if String.eqb file_ext EmptyString
    then (".png"%string, (name_without_ext ++ ".png")%string)
    else (file_ext, file_name) in
  let new_file_name :=
    if negb (has_timestamp name_without_ext)
    then (name_without_ext ++ timestamp ++ file_ext)%string
    else file_name in
  let new_file_path := join file_dir new_file_name in
  let file_ext_lower := lower file_ext in
  if string_in file_ext_lower [".jpg"; ".jpeg"]%string
  then (new_file_path, file_ext_lower, IMWRITE_JPEG_QUALITY 95)
  else if String.eqb file_ext_lower ".png"
  then (new_file_path, file_ext_lower, IMWRITE_PNG_COMPRESSION 3)
  else (replace file_ext ".png" new_file_path, ".png"%string,
        IMWRITE_PNG_COMPRESSION 3).

(** The extension is one [save_image] encodes as it is: [.jpg], [.jpeg] or
    [.png] in any letter case, or none, which stands for [.png]. *)
Definition encoded_as_named (file_ext : string) : bool :=
  String.eqb file_ext EmptyString
  || string_in (lower file_ext) [".jpg"; ".jpeg"; ".png"]%string.

Import Reference.

(* ===================================================================== *)
(** ** Rounding and saturation *)
(* ===================================================================== *)

Lemma cvRound_comp (q q' : Q) : (q == q')%Q -> cvRound q = cvRound q'.
Proof.
  intros E. unfold cvRound.
  rewrite (Qfloor_comp _ _ E).
  assert (E' : (q - inject_Z (Qfloor q') == q' - inject_Z (Qfloor q'))%Q)
    by (rewrite E; reflexivity).
  rewrite (Qcompare_comp _ _ E' (1 # 2) (1 # 2) (Qeq_refl _)).
  reflexivity.
Qed.

Lemma cvRound_inject_Z (z : Z) : cvRound (inject_Z z) = z.
Proof.
  unfold cvRound. rewrite Qfloor_Z.
  assert (L : (inject_Z z - inject_Z z < 1 # 2)%Q).
  { setoid_replace (inject_Z z - inject_Z z)%Q with 0%Q by ring. reflexivity. }
  rewrite Qlt_alt in L. rewrite L. reflexivity.
Qed.

Lemma saturate_u8_id (z : Z) : is_u8 z -> saturate_u8 z = z.
Proof. unfold is_u8, saturate_u8. lia. Qed.

Lemma saturate_u8_range (z : Z) : is_u8 (saturate_u8 z).
Proof. unfold is_u8, saturate_u8. lia. Qed.

Lemma saturate_cast_range (q : Q) : is_u8 (saturate_cast q).
Proof. apply saturate_u8_range. Qed.

Lemma saturate_cast_u8 (z : Z) (q : Q) :
  is_u8 z -> (q == inject_Z z)%Q -> saturate_cast q = z.
Proof.
  intros Hz E. unfold saturate_cast.
  rewrite (cvRound_comp _ _ E), cvRound_inject_Z. now apply saturate_u8_id.
Qed.

Lemma py_int_nonneg (q : Q) : (0 <= q)%Q -> py_int q = Qfloor q.
Proof.
  intros H. unfold py_int.
  apply Qle_bool_iff in H. now rewrite H.
Qed.

(** A truncated product of a size with a fraction of [0, 1] stays within
    the size. *)
Lemma py_int_fraction (n : Z) (r : Q) :
  0 <= n -> (0 <= r)%Q -> (r <= 1)%Q ->
  0 <= py_int (inject_Z n * r) <= n.
Proof.
  intros Hn H0 H1.
  assert (Hp : (0 <= inject_Z n * r)%Q).
  { apply Qmult_le_0_compat; [| assumption].
    change 0%Q with (inject_Z 0). rewrite <- Zle_Qle. exact Hn. }
  rewrite (py_int_nonneg _ Hp). split.
  - change 0 with (Qfloor (inject_Z 0)). apply Qfloor_resp_le. exact Hp.
  - rewrite <- (Qfloor_Z n) at 2. apply Qfloor_resp_le.
    destruct r as [a b]. unfold Qle in *. simpl in *. nia.
Qed.

(* ===================================================================== *)
(** ** Slices and the crop rectangle *)
(* ===================================================================== *)

Lemma slice_bound_id (len i : Z) : 0 <= i <= len -> slice_bound len i = i.
Proof. unfold slice_bound. intros H. destruct (Z.ltb_spec i 0); lia. Qed.

Lemma py_slice_in_range {A} (l : list A) (lo hi : Z) :
  0 <= lo <= hi -> hi <= Z.of_nat (length l) ->
  py_slice l lo hi = firstn (Z.to_nat (hi - lo)) (skipn (Z.to_nat lo) l).
Proof.
  intros H1 H2. unfold py_slice.
  rewrite !slice_bound_id by lia. reflexivity.
Qed.

Lemma py_slice_length {A} (l : list A) (lo hi : Z) :
  0 <= lo <= hi -> hi <= Z.of_nat (length l) ->
  Z.of_nat (length (py_slice l lo hi)) = hi - lo.
Proof.
  intros H1 H2. rewrite py_slice_in_range by assumption.
  rewrite length_firstn, length_skipn. lia.
Qed.

Lemma Forall_firstn {A} (P : A -> Prop) (n : nat) (l : list A) :
  Forall P l -> Forall P (firstn n l).
Proof.
  revert l. induction n; intros l H; simpl; [constructor |].
  destruct H; constructor; auto.
Qed.

Lemma Forall_skipn {A} (P : A -> Prop) (n : nat) (l : list A) :
  Forall P l -> Forall P (skipn n l).
Proof.
  revert l. induction n; intros l H; simpl; [exact H |].
  destruct H; [constructor | auto].
Qed.

Lemma Forall_py_slice {A} (P : A -> Prop) (l : list A) (lo hi : Z) :
  Forall P l -> Forall P (py_slice l lo hi).
Proof.
  intros H. unfold py_slice. now apply Forall_firstn, Forall_skipn.
Qed.

Lemma py_slice_all {A} (l : list A) : py_slice l 0 (Z.of_nat (length l)) = l.
Proof.
  rewrite py_slice_in_range by lia. simpl.
  rewrite Z.sub_0_r, Nat2Z.id. apply firstn_all.
Qed.

Lemma rectangular_cols (n : Z) (img : ndarray) :
  rectangular n img -> 1 <= rows img -> cols img = n.
Proof.
  unfold rectangular, rows, cols. destruct (pixels img) as [| row t]; simpl.
  - lia.
  - intros H _. now inversion H.
Qed.

(** The bounds of the crop rectangle of a non-empty frame. *)
Lemma crop_box_bounds (w h : Z) (l t r b : Q) (x0 y0 x1 y1 : Z) :
  0 < w -> 0 < h ->
  (0 <= l <= 1)%Q -> (0 <= t <= 1)%Q -> (0 <= r <= 1)%Q -> (0 <= b <= 1)%Q ->
  crop_box w h l t r b = (x0, y0, x1, y1) ->
  0 <= x0 < x1 /\ x1 <= w /\ 0 <= y0 < y1 /\ y1 <= h.
Proof.
  intros Hw Hh [Hl0 Hl1] [Ht0 Ht1] [Hr0 Hr1] [Hb0 Hb1]. unfold crop_box.
  pose proof (py_int_fraction w l ltac:(lia) Hl0 Hl1) as BL.
  pose proof (py_int_fraction w r ltac:(lia) Hr0 Hr1) as BR.
  pose proof (py_int_fraction h t ltac:(lia) Ht0 Ht1) as BT.
  pose proof (py_int_fraction h b ltac:(lia) Hb0 Hb1) as BB.
  destruct (Z.geb_spec (py_int (inject_Z w * l)) (py_int (inject_Z w * r)));
  destruct (Z.geb_spec (py_int (inject_Z h * t)) (py_int (inject_Z h * b)));
  simpl; intros E; injection E as <- <- <- <-; lia.
Qed.

Lemma slice2_shape (img : ndarray) (x0 y0 x1 y1 : Z) :
  rectangular (cols img) img ->
  0 <= x0 <= x1 -> x1 <= cols img -> 0 <= y0 <= y1 -> y1 <= rows img ->
  rows (slice2 img y0 y1 x0 x1) = y1 - y0 /\
  rectangular (x1 - x0) (slice2 img y0 y1 x0 x1).
Proof.
  intros Hrect Hx Hx1 Hy Hy1. unfold slice2, rows, rectangular. simpl. split.
  - rewrite length_map. apply py_slice_length; [lia | exact Hy1].
  - apply Forall_map.
    eapply Forall_impl; [| apply Forall_py_slice; exact Hrect].
    intros row Hrow. simpl in Hrow. apply py_slice_length; lia.
Qed.

Lemma full_width_slice (w : Z) (g : grid) :
  Forall (fun row => Z.of_nat (length row) = w) g ->
  map (fun row => py_slice row 0 w) g = g.
Proof.
  induction 1 as [| row t Hrow _ IH]; simpl; [reflexivity |].
  rewrite IH. subst w. now rewrite py_slice_all.
Qed.

Lemma floor_tenths (n : Z) (k : positive) :
  Qfloor (inject_Z n * (Zpos k # 10)) = (n * Zpos k) / 10.
Proof. reflexivity. Qed.

Lemma py_int_tenths (n : Z) (k : positive) :
  0 <= n -> py_int (inject_Z n * (Zpos k # 10)) = (n * Zpos k) / 10.
Proof.
  intros H. rewrite py_int_nonneg; [apply floor_tenths |].
  unfold Qle. simpl. nia.
Qed.

(** C5 (as stated) fails on an image one pixel high: both truncated row
    bounds are 0, the vertical range resets to the full height and the one
    row is kept, whereas rows [0, 0) are no rows at all. *)
Lemma C5_counterexample : ~ crop_example_claim.
Proof.
  intros H. specialize (H (gray_image [[7]])).
  assert (R : rectangular (cols (gray_image [[7]])) (gray_image [[7]]))
    by (repeat constructor).
  specialize (H R). vm_compute in H. discriminate H.
Qed.

(** C5 (amended) - The crop stage validates its two axes independently: a
    horizontal range whose truncated left bound is not below the right one
    resets to the full width whatever the vertical range is, and likewise
    the vertical range resets to the full height; so for every image at
    least two pixels high, [crop(0.9, 0.1, 0.2, 0.9)] keeps every column
    and exactly the rows from [floor(0.1*height)] to [floor(0.9*height)]. *)
Theorem C5_crop_axes_reset_independently :
  (forall (w h : Z) (l t r b : Q),
      let left := py_int (inject_Z w * l) in
      let right := py_int (inject_Z w * r) in
      let top := py_int (inject_Z h * t) in
      let bottom := py_int (inject_Z h * b) in
      let '(x0, y0, x1, y1) := crop_box w h l t r b in
      (x0, x1) = (if left >=? right then (0, w) else (left, right)) /\
      (y0, y1) = (if top >=? bottom then (0, h) else (top, bottom))) /\
  (forall image : ndarray,
      rectangular (cols image) image ->
      2 <= rows image ->
      pixels (apply_crop image (9 # 10) (1 # 10) (2 # 10) (9 # 10)) =
      py_slice (pixels image)
               (Qfloor (inject_Z (rows image) * (1 # 10)))
               (Qfloor (inject_Z (rows image) * (9 # 10)))).
Proof.
  split.
  - intros w h l t r b. unfold crop_box. simpl.
    split; [destruct (_ >=? _) | destruct (_ >=? _)]; reflexivity.
  - intros image Hrect Hrows.
    assert (Hc : 0 <= cols image) by (unfold cols; destruct (pixels image); lia).
    unfold apply_crop, crop_box.
    rewrite !py_int_tenths by lia. rewrite !floor_tenths.
    destruct (Z.geb_spec (cols image * 9 / 10) (cols image * 2 / 10)) as [_ | Hlt];
      [| exfalso; Z.to_euclidean_division_equations; lia].
    destruct (Z.geb_spec (rows image * 1 / 10) (rows image * 9 / 10)) as [Hge | _];
      [exfalso; Z.to_euclidean_division_equations; lia |].
    simpl. apply full_width_slice. apply Forall_py_slice. exact Hrect.
Qed.

Lemma C5_crop_axes_reset_independently_witness :
  pixels (apply_crop (gray_image [[1; 2]; [3; 4]; [5; 6]])
                     (9 # 10) (1 # 10) (2 # 10) (9 # 10)) =
  [[[1]; [2]]; [[3]; [4]]].
Proof.
  rewrite (proj2 C5_crop_axes_reset_independently
             (gray_image [[1; 2]; [3; 4]; [5; 6]])).
  - reflexivity.
  - repeat constructor.
  - vm_compute. discriminate.
Defined.

(** C10 - For a non-empty image and crop fractions in [0, 1], the pixel
    rectangle the crop stage slices satisfies [left < right] and
    [top < bottom] once each axis had its reset, and the sliced output has
    at least one row and one column. *)
Theorem C10_crop_output_not_empty (image : ndarray) (l t r b : Q) :
  0 < cols image -> 0 < rows image ->
  rectangular (cols image) image ->
  (0 <= l <= 1)%Q -> (0 <= t <= 1)%Q -> (0 <= r <= 1)%Q -> (0 <= b <= 1)%Q ->
  let '(x0, y0, x1, y1) := crop_box (cols image) (rows image) l t r b in
  x0 < x1 /\ y0 < y1 /\
  rows (apply_crop image l t r b) = y1 - y0 /\
  cols (apply_crop image l t r b) = x1 - x0 /\
  1 <= rows (apply_crop image l t r b) /\
  1 <= cols (apply_crop image l t r b).
Proof.
  intros Hw Hh Hrect Hl Ht Hr Hb.
  unfold apply_crop.
  destruct (crop_box (cols image) (rows image) l t r b)
    as [[[x0 y0] x1] y1] eqn:E.
  pose proof (crop_box_bounds _ _ _ _ _ _ _ _ _ _ Hw Hh Hl Ht Hr Hb E)
    as (Bx & Bx1 & By & By1).
  destruct (slice2_shape image x0 y0 x1 y1 Hrect) as [Srows Srect]; try lia.
  assert (Scols : cols (slice2 image y0 y1 x0 x1) = x1 - x0)
    by (apply rectangular_cols; [exact Srect | lia]).
  repeat split; lia.
Qed.

Lemma C10_crop_output_not_empty_witness :
  let image := gray_image [[1; 2; 3]; [4; 5; 6]] in
  rows (apply_crop image (1 # 2) 0 (1 # 2) 1) = 2 /\
  cols (apply_crop image (1 # 2) 0 (1 # 2) 1) = 3.
Proof.
  pose proof (C10_crop_output_not_empty
                (gray_image [[1; 2; 3]; [4; 5; 6]]) (1 # 2) 0 (1 # 2) 1) as W.
  simpl in W.
  assert (H : 0 < 3 /\ 0 < 2) by lia.
  destruct H as [H3 H2].
  specialize (W H3 H2).
  destruct W as (_ & _ & Wr & Wc & _).
  - repeat constructor.
  - split; discriminate.
  - split; discriminate.
  - split; discriminate.
  - split; discriminate.
  - split; [exact Wr | exact Wc].
Defined.

(* ===================================================================== *)
(** ** Brightness *)
(* ===================================================================== *)

(** The sample the brightness stage stores: the absolute value of the
    shifted sample, rounded and saturated. *)
Lemma adjust_brightness_samples (image : ndarray) (b : Z) :
  adjust_brightness image b =
  map_samples
    (fun s => saturate_cast (Qabs (inject_Z s + inject_Z b * (255 # 100))))
    image.
Proof.
  unfold adjust_brightness, convertScaleAbs, map_samples. f_equal.
  apply map_ext. intros row. apply map_ext. intros p. apply map_ext. intros s.
  unfold saturate_cast. f_equal. apply cvRound_comp.
  apply Qabs_wd. ring.
Qed.

(** C3 - The brightness stage on a black sample with offset -100: the code
    stores [|0 - 255| = 255], where [clamp(0 + (-100)*2.55, 0, 255)] is 0;
    the sample comes out larger than it went in. *)
Theorem C3_brightness_negative_offset_on_black :
  adjust_brightness (gray_image [[0]]) (-100) = gray_image [[255]] /\
  spec_brightness (gray_image [[0]]) (-100) = gray_image [[0]].
Proof. split; vm_compute; reflexivity. Qed.

(* ===================================================================== *)
(** ** A load that does not decode *)
(* ===================================================================== *)

(** C2 (as stated) fails: in the state a load of [scan.png] leaves, a load
    of [broken.png] clears the baseline image and replaces the stored
    path. *)
Lemma C2_counterexample : ~ failed_load_keeps_state ref_cv2 ref_fs.
Proof.
  intros H.
  pose (loaded := state_of (load_image_from_path (init default_widgets) "scan.png")).
  specialize (H loaded "broken.png"%string [Byte.x0a; Byte.x14]).
  assert (H' : load_image_from_path loaded "broken.png" = Returned loaded).
  { apply H; [discriminate | reflexivity ..]. }
  vm_compute in H'. discriminate H'.
Qed.

(** C2 (amended) - If load is given a file whose bytes fail to decode, the
    pre-cleanup copy, the output image and the parameters are left as they
    were, the baseline image is cleared and the stored original-image path
    is the path of the failed load; the load returns, and a recompute then
    returns and changes nothing. *)
Theorem C2_failed_load_clears_baseline
    {cv : Cv2} {fs : FileSystem}
    (self : ImageProcessor) (file_path : string) (buffer : list Byte.byte) :
  file_path <> EmptyString ->
  read_file file_path = Some buffer ->
  imdecode buffer = None ->
  imread (abspath file_path) = None ->
  imread file_path = None ->
  exists self',
    load_image_from_path self file_path = Returned self' /\
    original_image_old self' = original_image_old self /\
    processed_image self' = processed_image self /\
    widgets self' = widgets self /\
    original_image self' = None /\
    original_image_path self' = Some file_path /\
    update_processed_image self' = Returned self'.
Proof.
  intros Hpath Hread Hdec Habs Hraw.
  unfold load_image_from_path.
  apply String.eqb_neq in Hpath. rewrite Hpath, Hread. simpl.
  rewrite Hdec, Habs, Hraw.
  eexists. split; [reflexivity |]. repeat split.
Qed.

Lemma C2_failed_load_clears_baseline_witness :
  exists self',
    load_image_from_path
      (mk_processor (Some (gray_image [[22; 255]])) (Some (gray_image [[22; 255]]))
                    (Some "scan.png"%string)
                    (Some (mk_ndarray true [[[10; 20; 30]; [200; 210; 220]]]))
                    default_widgets)
      "broken.png" = Returned self' /\
    original_image self' = None /\
    original_image_path self' = Some "broken.png"%string.
Proof.
  destruct (C2_failed_load_clears_baseline
              (mk_processor (Some (gray_image [[22; 255]]))
                            (Some (gray_image [[22; 255]]))
                            (Some "scan.png"%string)
                            (Some (mk_ndarray true [[[10; 20; 30]; [200; 210; 220]]]))
                            default_widgets)
              "broken.png"%string [Byte.x0a; Byte.x14])
    as (self' & L & _ & _ & _ & O & P & _).
  - discriminate.
  - reflexivity.
  - reflexivity.
  - reflexivity.
  - reflexivity.
  - exists self'. repeat split; assumption.
Defined.

(* ===================================================================== *)
(** ** The order of the recompute *)
(* ===================================================================== *)

Lemma existsb_negb {A} (p : A -> bool) (l : list A) :
  existsb (fun x => negb (p x)) l = negb (forallb p l).
Proof.
  induction l as [| x t IH]; simpl; [reflexivity |].
  rewrite IH. now destruct (p x).
Qed.

Lemma Qlt_bool_0_hundredth (v : Z) :
  0 <= v -> Qlt_bool 0 (v # 100) = negb (Qeq_bool (v # 100) 0).
Proof.
  intros H. unfold Qlt_bool, Qle_bool, Qeq_bool. simpl.
  rewrite Z.mul_1_r.
  destruct (Z.leb_spec v 0), (Z.eqb_spec v 0); simpl; try reflexivity; lia.
Qed.

Lemma Qlt_bool_hundredth_1 (v : Z) :
  v <= 100 -> Qlt_bool (v # 100) 1 = negb (Qeq_bool (v # 100) 1).
Proof.
  intros H. unfold Qlt_bool, Qle_bool, Qeq_bool. simpl.
  rewrite Z.mul_1_r.
  destruct (Z.leb_spec 100 v), (Z.eqb_spec v 100); simpl; try reflexivity; lia.
Qed.

(** Within the slider ranges the crop condition of the code, "some bound is
    inside the frame", says that the rectangle is not the full frame. *)
Lemma crop_gate (l t r b : Z) :
  0 <= l -> 0 <= t -> r <= 100 -> b <= 100 ->
  Qlt_bool 0 (l # 100) || Qlt_bool 0 (t # 100)
  || Qlt_bool (r # 100) 1 || Qlt_bool (b # 100) 1
  = negb (is_full_frame (l # 100, t # 100, r # 100, b # 100)%Q).
Proof.
  intros Hl Ht Hr Hb. unfold is_full_frame.
  rewrite !Qlt_bool_0_hundredth, !Qlt_bool_hundredth_1 by assumption.
  destruct (Qeq_bool (l # 100) 0), (Qeq_bool (t # 100) 0),
           (Qeq_bool (r # 100) 1), (Qeq_bool (b # 100) 1); reflexivity.
Qed.

(** C1 - For every recompute with an image loaded, the output image is the
    result of the stages applied in the fixed order: the start image
    (denoised pre-cleanup copy if the moire switch is on, else a copy of the
    baseline), then perspective warp, rotation, contrast, brightness,
    sharpen, blur and crop, each under its own condition and each on the
    output of the stage before it.  That result is assigned to the output
    image, and the recompute ends by displaying it: it returns when
    [display_image] takes the result and raises, with the output image
    assigned all the same, when it does not. *)
Theorem C1_recompute_fixed_order
    {cv : Cv2} (self : ImageProcessor) (baseline preCleanup : ndarray) :
  original_image self = Some baseline ->
  original_image_old self = Some preCleanup ->
  sliders_in_range (widgets self) ->
  let out := spec_recompute (parameters (widgets self)) baseline preCleanup in
  update_processed_image self =
  shown (Some out) (set_processed_image (Some out) self) /\
  processed_image (state_of (update_processed_image self)) = Some out.
Proof.
  intros Hbase Hold Hrange out.
  assert (E : update_processed_image self =
              shown (Some out) (set_processed_image (Some out) self));
    [| split; [exact E | rewrite E; unfold shown;
                         now destruct (display_image (Some out))]].
  subst out.
  destruct Hrange as (_ & _ & _ & _ & _ & Hl & Ht & Hr & Hb & _).
  unfold update_processed_image. rewrite Hbase, Hold.
  unfold spec_recompute, spec_start, spec_stages, run_stage, parameters, truthy.
  cbn [moireEnabled perspectiveEnabled cropEnabled cornerOffsets cropRect
       contrast brightness sharpness blurRadius rotationAngle
       fold_left gate transform map nth].
  rewrite existsb_negb.
  rewrite crop_gate by lia.
  destruct (moire_switch (widgets self)); reflexivity.
Qed.

Lemma C1_recompute_fixed_order_witness :
  let ui := mk_widgets 150 10 50 0 0 false true 0 0 50 100 false 0 0 0 0 0 0 0 0 in
  let baseline := gray_image [[22; 255]] in
  let preCleanup := mk_ndarray true [[[10; 20; 30]; [200; 210; 220]]] in
  let self :=
    mk_processor (Some baseline) (Some baseline) (Some "scan.png"%string)
                 (Some preCleanup) ui in
  let out := spec_recompute (parameters ui) baseline preCleanup in
  update_processed_image self =
  shown (Some out) (set_processed_image (Some out) self) /\
  processed_image (state_of (update_processed_image self)) = Some out.
Proof.
  intros ui baseline preCleanup self.
  apply (C1_recompute_fixed_order self baseline preCleanup).
  - reflexivity.
  - reflexivity.
  - unfold sliders_in_range. simpl. repeat split; try lia.
    repeat constructor; lia.
Defined.

(* ===================================================================== *)
(** ** Sample-wise combinations *)
(* ===================================================================== *)

Lemma zip_with_ext_Forall {A B C} (P : A -> Prop) (Q : B -> Prop)
    (f g : A -> B -> C) (a : list A) (b : list B) :
  Forall P a -> Forall Q b ->
  (forall x y, P x -> Q y -> f x y = g x y) ->
  zip_with f a b = zip_with g a b.
Proof.
  intros Ha. revert b. induction Ha as [| x a Hx Ha IH]; intros b Hb E.
  - reflexivity.
  - destruct Hb as [| y b Hy Hb]; simpl; [reflexivity |].
    rewrite (E x y Hx Hy). f_equal. now apply IH.
Qed.




Lemma zip3_ext_Forall (P Q : Z -> Prop) (f g : Z -> Z -> Z) (a b : grid) :
  Forall (Forall (Forall P)) a -> Forall (Forall (Forall Q)) b ->
  (forall x y, P x -> Q y -> f x y = g x y) ->
  zip_with (zip_with (zip_with f)) a b = zip_with (zip_with (zip_with g)) a b.
Proof.
  intros Ha Hb E.
  apply (zip_with_ext_Forall _ _ _ _ _ _ Ha Hb). intros r1 r2 H1 H2.
  apply (zip_with_ext_Forall _ _ _ _ _ _ H1 H2). intros p1 p2 H3 H4.
  apply (zip_with_ext_Forall _ _ _ _ _ _ H3 H4). exact E.
Qed.

Lemma zip_with_length {A B C} (f : A -> B -> C) (a : list A) (b : list B) :
  length a = length b -> length (zip_with f a b) = length a.
Proof.
  revert b. induction a as [| x a IH]; intros [| y b]; simpl; intros E;
    try reflexivity; try discriminate.
  f_equal. apply IH. now injection E.
Qed.



Lemma map_samples_shape (f : Z -> Z) (a : ndarray) :
  shape (map_samples f a) = shape a.
Proof.
  unfold shape, map_samples. simpl. rewrite map_map.
  apply map_ext. intros row. rewrite map_map.
  apply map_ext. intros p. apply length_map.
Qed.



(* ===================================================================== *)
(** ** The reference services keep the contract *)
(* ===================================================================== *)

Lemma imap_from_length {A B} (f : nat -> A -> B) (i : nat) (l : list A) :
  length (imap_from f i l) = length l.
Proof.
  revert i. induction l as [| x t IH]; intros i; simpl; [reflexivity |].
  now rewrite IH.
Qed.

Lemma map_imap_from {A B C} (g : B -> C) (f : nat -> A -> B) (i : nat) (l : list A) :
  map g (imap_from f i l) = imap_from (fun k x => g (f k x)) i l.
Proof.
  revert i. induction l as [| x t IH]; intros i; simpl; [reflexivity |].
  now rewrite IH.
Qed.

Lemma imap_from_as_map {A B} (f : nat -> A -> B) (h : A -> B) (i : nat) (l : list A) :
  (forall k x, f k x = h x) -> imap_from f i l = map h l.
Proof.
  intros E. revert i. induction l as [| x t IH]; intros i; simpl; [reflexivity |].
  now rewrite E, IH.
Qed.

Lemma filter2D_shape (img : ndarray) (kernel : list (list Q)) :
  shape (filter2D img kernel) = shape img.
Proof.
  unfold shape, filter2D, imap. simpl.
  rewrite map_imap_from. apply imap_from_as_map. intros i row.
  rewrite map_imap_from. apply imap_from_as_map. intros j p.
  apply imap_from_length.
Qed.

Lemma Forall_imap_from {A B} (P : B -> Prop) (f : nat -> A -> B) (i : nat)
    (l : list A) :
  (forall k x, P (f k x)) -> Forall P (imap_from f i l).
Proof.
  intros H. revert i. induction l as [| x t IH]; intros i; simpl;
    constructor; auto.
Qed.

Lemma filter2D_u8 (img : ndarray) (kernel : list (list Q)) :
  u8_image (filter2D img kernel).
Proof.
  unfold u8_image, u8_grid, filter2D, imap. simpl.
  apply Forall_imap_from. intros i row.
  apply Forall_imap_from. intros j p.
  apply Forall_imap_from. intros c s. apply saturate_cast_range.
Qed.

(** Well-formedness only depends on the channel axis and the shape. *)
Lemma well_formed_shape (a b : ndarray) :
  ndim3 a = ndim3 b -> shape a = shape b -> well_formed b -> well_formed a.
Proof.
  unfold well_formed, shape. intros -> E H.
  revert E H. generalize (pixels a) (pixels b) (if ndim3 b then 3%nat else 1%nat).
  intros g1. induction g1 as [| r1 g1 IH]; intros [| r2 g2] n E H;
    try discriminate; constructor.
  - simpl in E. injection E as E1 _. inversion H as [| ? ? H1 _]; subst.
    clear - E1 H1. revert r2 E1 H1.
    induction r1 as [| p r1 IHr]; intros [| q r2] E1 H1; try discriminate;
      constructor.
    + simpl in E1. injection E1 as Ep _. inversion H1; subst. congruence.
    + simpl in E1. injection E1 as _ Er. inversion H1; subst. eauto.
  - simpl in E. injection E as _ E2. inversion H; subst. eauto.
Qed.

Lemma triples_well_formed (n : nat) :
  forall (l : list Byte.byte) (ps : list pixel),
    (length l <= n)%nat -> triples l = Some ps ->
    Forall (fun p : pixel => length p = 3%nat) ps.
Proof.
  induction n as [| n IH]; intros l ps Hlen E.
  - destruct l; [| simpl in Hlen; lia]. injection E as <-. constructor.
  - destruct l as [| b [| g [| r t]]]; try discriminate.
    + injection E as <-. constructor.
    + simpl in E. destruct (triples t) as [ps' |] eqn:Et; [| discriminate].
      injection E as <-. constructor; [reflexivity |].
      apply (IH t); [simpl in Hlen; lia | exact Et].
Qed.

Lemma decode_color (buffer : list Byte.byte) (img : ndarray) :
  decode buffer = Some img -> ndim3 img = true /\ well_formed img.
Proof.
  unfold decode. destruct buffer as [| b t]; [discriminate |].
  destruct (triples (b :: t)) as [ps |] eqn:E; [| discriminate].
  intros H. injection H as <-. split; [reflexivity |].
  unfold well_formed. simpl. constructor; [| constructor].
  eapply triples_well_formed; [| exact E]. apply le_n.
Qed.

Lemma white_canvas_well_formed (color : bool) (w h : Z) :
  well_formed (white_canvas color w h).
Proof.
  unfold well_formed, white_canvas. simpl.
  apply Forall_forall. intros row Hrow. apply repeat_spec in Hrow. subst row.
  apply Forall_forall. intros p Hp. apply repeat_spec in Hp. subst p.
  apply repeat_length.
Qed.

Lemma ref_lawful : Cv2Laws ref_cv2.
Proof.
  constructor; simpl.
  - exact decode_color.
  - intros path img. destruct (files path); [apply decode_color | discriminate].
  - reflexivity.
  - intros img. unfold well_formed. simpl.
    apply Forall_map, Forall_forall. intros row _.
    apply Forall_map, Forall_forall. intros p _. reflexivity.
  - intros img. unfold u8_image, u8_grid. simpl.
    apply Forall_map, Forall_forall. intros row _.
    apply Forall_map, Forall_forall. intros p _.
    constructor; [apply saturate_cast_range | constructor].
  - intros img [] Hc Hn; [now elim Hc | exact Hn | exact Hn].
  - intros img [] Hc Hn Hw; [now elim Hc | exact Hw | exact Hw].
  - reflexivity.
  - intros. apply map_samples_shape.
  - intros img _ _ _ C. unfold binary_mask. simpl.
    apply Forall_map, Forall_forall. intros row _.
    apply Forall_map, Forall_forall. intros p _.
    apply Forall_map, Forall_forall. intros s _.
    destruct (s <=? _); [right | left]; reflexivity.
  - reflexivity.
  - reflexivity.
  - auto.
  - reflexivity.
  - intros. apply filter2D_shape.
  - intros. apply filter2D_u8.
  - reflexivity.
  - reflexivity.
  - reflexivity.
  - intros. apply white_canvas_well_formed.
  - reflexivity.
  - intros. apply white_canvas_well_formed.
Qed.

(* ===================================================================== *)
(** ** The cleanup of a loaded image *)
(* ===================================================================== *)

Section Cleanup.
Context {cv : Cv2} {fs : FileSystem} {laws : Cv2Laws cv}.

Lemma cleanup_mask_ndim (gray : ndarray) :
  ndim3 (cleanup_mask gray) = ndim3 gray.
Proof. unfold cleanup_mask. now rewrite dilate_ndim, threshold_ndim. Qed.

Lemma cleanup_mask_shape (gray : ndarray) :
  shape (cleanup_mask gray) = shape gray.
Proof. unfold cleanup_mask. now rewrite dilate_shape, threshold_shape. Qed.



(** The cleaned image has no channel axis, so [display_image] raises on
    it. *)
Lemma cleanup_ndim (decoded : ndarray) : ndim3 (cleanup decoded) = false.
Proof. apply gray_ndim. Qed.

Lemma display_cleanup (decoded : ndarray) :
  display_image (Some (cleanup decoded)) = false.
Proof. unfold display_image. now rewrite cleanup_ndim. Qed.

Lemma display_decoded (decoded : ndarray) :
  ndim3 decoded = true -> 0 < rows decoded -> 0 < cols decoded ->
  display_image (Some decoded) = true.
Proof.
  intros E Hr Hc. unfold display_image. rewrite E. simpl.
  apply andb_true_intro. split; now apply Z.ltb_lt.
Qed.


End Cleanup.



(* ===================================================================== *)
(** ** Channels through the pipeline *)
(* ===================================================================== *)

Lemma zip_with_Forall {A B C} (P : A -> Prop) (Q : B -> Prop) (R : C -> Prop)
    (f : A -> B -> C) (a : list A) (b : list B) :
  Forall P a -> Forall Q b ->
  (forall x y, P x -> Q y -> R (f x y)) ->
  Forall R (zip_with f a b).
Proof.
  intros Ha. revert b. induction Ha as [| x a Hx Ha IH]; intros b Hb E.
  - constructor.
  - destruct Hb as [| y b Hy Hb]; simpl; constructor; auto.
Qed.

Lemma has_channels_shape (c : bool) (a b : ndarray) :
  ndim3 a = ndim3 b -> shape a = shape b ->
  has_channels c b -> has_channels c a.
Proof.
  intros En Es [Hn Hw]. split; [congruence |].
  now apply (well_formed_shape a b).
Qed.

Lemma map_samples_channels (c : bool) (f : Z -> Z) (img : ndarray) :
  has_channels c img -> has_channels c (map_samples f img).
Proof.
  apply has_channels_shape; [reflexivity | apply map_samples_shape].
Qed.

Lemma zip_samples_channels (c : bool) (f : Z -> Z -> Z) (a b : ndarray) :
  has_channels c a -> has_channels c b -> has_channels c (zip_samples f a b).
Proof.
  intros [Ha Wa] [Hb Wb]. split; [exact Ha |].
  unfold well_formed in *. simpl. rewrite Ha in *. rewrite Hb in Wb.
  eapply zip_with_Forall; [exact Wa | exact Wb |]. intros r1 r2 H1 H2.
  eapply zip_with_Forall; [exact H1 | exact H2 |]. intros p q Hp Hq. simpl in *.
  rewrite zip_with_length; congruence.
Qed.

Lemma filter2D_channels (c : bool) (img : ndarray) (kernel : list (list Q)) :
  has_channels c img -> has_channels c (filter2D img kernel).
Proof.
  apply has_channels_shape; [reflexivity | apply filter2D_shape].
Qed.

Lemma slice2_channels (c : bool) (img : ndarray) (top bottom left right : Z) :
  has_channels c img -> has_channels c (slice2 img top bottom left right).
Proof.
  intros [Hn Hw]. split; [exact Hn |].
  unfold well_formed in *. simpl.
  apply Forall_map. eapply Forall_impl; [| apply Forall_py_slice; exact Hw].
  intros row Hrow. simpl. now apply Forall_py_slice.
Qed.

Lemma split_channel_channels (k : nat) (img : ndarray) :
  has_channels false (split_channel k img).
Proof.
  split; [reflexivity |]. unfold well_formed. simpl.
  apply Forall_map, Forall_forall. intros row _.
  apply Forall_map, Forall_forall. intros p _. reflexivity.
Qed.

Lemma merge_channels (x y z : ndarray) :
  has_channels false x -> has_channels false y -> has_channels false z ->
  has_channels true (merge x y z).
Proof.
  intros [Hx Wx] [Hy Wy] [Hz Wz]. split; [reflexivity |].
  unfold well_formed in *. rewrite Hx in Wx. rewrite Hy in Wy. rewrite Hz in Wz.
  simpl.
  assert (W23 : Forall (Forall (fun p : pixel => length p = 2%nat))
                  (zip_with (zip_with (@app Z)) (pixels y) (pixels z))).
  { eapply zip_with_Forall; [exact Wy | exact Wz |]. intros r2 r3 H2 H3.
    eapply zip_with_Forall; [exact H2 | exact H3 |]. intros q r Hq Hr.
    simpl in *. rewrite length_app. lia. }
  eapply zip_with_Forall; [exact Wx | exact W23 |]. intros r1 r23 H1 H23.
  eapply zip_with_Forall; [exact H1 | exact H23 |]. intros p qr Hp Hqr.
  simpl in *. rewrite length_app. lia.
Qed.

Lemma gray2bgr_channels (img : ndarray) :
  has_channels false img -> has_channels true (cvtColor_GRAY2BGR img).
Proof.
  intros [Hn Hw]. split; [reflexivity |].
  unfold well_formed in *. rewrite Hn in Hw. simpl.
  apply Forall_map. eapply Forall_impl; [| exact Hw]. intros row Hrow.
  apply Forall_map. eapply Forall_impl; [| exact Hrow]. intros p Hp.
  simpl in *. destruct p; [discriminate | reflexivity].
Qed.

Section Channels.
Context {cv : Cv2} {laws : Cv2Laws cv}.

Lemma blur_channels (c : bool) (img : ndarray) (ksize : Z * Z) (sigma : Q) :
  has_channels c img -> has_channels c (GaussianBlur img ksize sigma).
Proof. apply has_channels_shape; [apply blur_ndim | apply blur_shape]. Qed.

Lemma bilateral_channels (c : bool) (img : ndarray) (d : Z) (sc ss : Q) :
  has_channels c img -> has_channels c (bilateralFilter img d sc ss).
Proof.
  apply has_channels_shape; [apply bilateral_ndim | apply bilateral_shape].
Qed.

Lemma cleanup_mask_channels (c : bool) (gray : ndarray) :
  has_channels c gray -> has_channels c (cleanup_mask gray).
Proof.
  apply has_channels_shape; [apply cleanup_mask_ndim | apply cleanup_mask_shape].
Qed.

Lemma gray_channels (img : ndarray) :
  has_channels false (cvtColor img COLOR_BGR2GRAY).
Proof. split; [apply gray_ndim | apply gray_well_formed]. Qed.

Lemma lab_channels (img : ndarray) (code : ColorConversion) :
  code <> COLOR_BGR2GRAY ->
  has_channels true img -> has_channels true (cvtColor img code).
Proof.
  intros Hc [Hn Hw]. split; [now apply lab_ndim | now apply lab_well_formed].
Qed.

Lemma multi_scale_filter_channels (c : bool) (img : ndarray) :
  has_channels c img -> has_channels c (multi_scale_filter img).
Proof.
  intros H. unfold multi_scale_filter, addWeighted.
  repeat apply zip_samples_channels; now apply blur_channels.
Qed.

Lemma remove_moire_channels (c : bool) (img : ndarray) :
  has_channels c img -> has_channels c (remove_moire img).
Proof.
  intros H. unfold remove_moire. destruct H as [Hn Hw].
  destruct (ndim3 img) eqn:E; subst c; simpl.
  - apply bilateral_channels, lab_channels; [discriminate |].
    apply merge_channels; try apply split_channel_channels.
    apply multi_scale_filter_channels, split_channel_channels.
  - apply bilateral_channels, multi_scale_filter_channels. now split.
Qed.

Lemma composite_channels (c : bool) (image mask : ndarray) :
  has_channels c image -> has_channels c mask ->
  has_channels c (composite image mask).
Proof.
  intros Hi Hm. unfold composite, cv_add, bitwise_and, bitwise_not.
  repeat apply zip_samples_channels; try assumption.
  now apply map_samples_channels.
Qed.

Lemma cleanup_channels (decoded : ndarray) :
  has_channels false (cleanup decoded).
Proof.
  unfold cleanup. apply composite_channels; [apply gray_channels |].
  apply cleanup_mask_channels, gray_channels.
Qed.

(** The start image of the moire branch has the channels of the pre-cleanup
    copy. *)
Lemma moire_start_channels (old : ndarray) :
  has_channels true old -> has_channels true (moire_start old).
Proof.
  intros H. unfold moire_start.
  pose proof (remove_moire_channels true old H) as [Pn Pw].
  rewrite Pn.
  pose proof (cleanup_mask_channels false _
                (gray_channels (remove_moire old))) as M.
  destruct H as [Hn Hw]. rewrite Hn. rewrite (proj1 M). simpl.
  unfold cv_add, bitwise_and.
  repeat apply zip_samples_channels; try (now split).
  - now apply gray2bgr_channels.
  - apply gray2bgr_channels. unfold bitwise_not. now apply map_samples_channels.
Qed.

Lemma rotate_image_channels (c : bool) (img : ndarray) (angle : Z) :
  has_channels c img -> has_channels c (rotate_image img angle).
Proof.
  intros [Hn Hw]. unfold rotate_image.
  destruct (angle =? 0); [now split |].
  destruct (rotated_canvas _ _ _) as [nw nh].
  split; [now rewrite warpAffine_ndim | now apply warpAffine_well_formed].
Qed.

Lemma perspective_channels (c : bool) (img : ndarray) (a1 a2 a3 a4 a5 a6 a7 a8 : Q) :
  has_channels c img ->
  has_channels c (apply_perspective_transform img a1 a2 a3 a4 a5 a6 a7 a8).
Proof.
  intros [Hn Hw]. unfold apply_perspective_transform.
  split; [now rewrite warpPerspective_ndim | now apply warpPerspective_well_formed].
Qed.

Lemma adjust_sharpness_channels (c : bool) (img : ndarray) (s : Q) :
  has_channels c img -> has_channels c (adjust_sharpness img s).
Proof.
  intros H. unfold adjust_sharpness, addWeighted.
  apply zip_samples_channels; [exact H | now apply filter2D_channels].
Qed.

Lemma apply_crop_channels (c : bool) (img : ndarray) (l t r b : Q) :
  has_channels c img -> has_channels c (apply_crop img l t r b).
Proof.
  intros H. unfold apply_crop.
  destruct (crop_box _ _ _ _ _ _) as [[[x0 y0] x1] y1].
  now apply slice2_channels.
Qed.

(** Every gated stage keeps the channels of its input. *)
Lemma spec_stages_channels (c : bool) (p : ParameterSet) (img : ndarray) :
  has_channels c img ->
  has_channels c (fold_left run_stage (spec_stages p) img).
Proof.
  intros H. unfold spec_stages.
  destruct (cropRect p) as [[[l t] r] b].
  cbn [fold_left]. unfold run_stage. cbn [gate transform].
  repeat first
    [ exact H
    | match goal with
      | |- has_channels _ (if ?g then _ else _) => destruct g
      end
    | apply apply_crop_channels
    | apply blur_channels
    | apply adjust_sharpness_channels
    | apply map_samples_channels
    | apply rotate_image_channels
    | apply perspective_channels ].
Qed.

End Channels.

Section LoadedState.
Context {cv : Cv2} {fs : FileSystem} {laws : Cv2Laws cv}.

(** What a load leaves when one of its three attempts decodes an image
    that is not empty: the decoded image has three channels and is the
    pre-cleanup copy, the baseline and the output are its cleanup, and the
    call raises at the display of that output. *)
Lemma load_success (self : ImageProcessor) (file_path : string)
    (buffer : list Byte.byte) (decoded : ndarray) :
  file_path <> EmptyString ->
  read_file file_path = Some buffer ->
  or_else (imdecode buffer)
          (or_else (imread (abspath file_path)) (imread file_path))
  = Some decoded ->
  0 < rows decoded -> 0 < cols decoded ->
  has_channels true decoded /\
  load_image_from_path self file_path =
  Raised (mk_processor (Some (cleanup decoded)) (Some (cleanup decoded))
                       (Some file_path) (Some decoded) (widgets self)).
Proof.
  intros Hpath Hread Hdec Hr Hc.
  assert (Cd : has_channels true decoded).
  { unfold or_else in Hdec.
    destruct (imdecode buffer) as [d |] eqn:E1;
      [| destruct (imread (abspath file_path)) as [d |] eqn:E2];
      [injection Hdec as <-; exact (imdecode_color _ _ E1)
      | injection Hdec as <-; exact (imread_color _ _ E2)
      | exact (imread_color _ _ Hdec)]. }
  split; [exact Cd |].
  pose proof (display_decoded decoded (proj1 Cd) Hr Hc) as D.
  unfold load_image_from_path.
  apply String.eqb_neq in Hpath. rewrite Hpath, Hread.
  unfold or_else in Hdec.
  destruct (imdecode buffer) as [d |] eqn:E1;
    [| destruct (imread (abspath file_path)) as [d |] eqn:E2];
    cbn [original_image set_original_image];
    try rewrite E2; cbn [original_image set_original_image];
    try rewrite Hdec; try (injection Hdec as ->);
    cbn [original_image set_original_image];
    rewrite D; unfold shown, copy;
    cbn [processed_image set_processed_image];
    now rewrite display_cleanup.
Qed.

(** A recompute keeps the channels of its start image: those of the
    pre-cleanup copy with the moire switch on, those of the baseline with
    the switch off. *)
Lemma update_channels (self : ImageProcessor) (baseline old : ndarray) :
  original_image self = Some baseline ->
  original_image_old self = Some old ->
  has_channels false baseline ->
  has_channels true old ->
  exists out,
    update_processed_image self =
    shown (Some out) (set_processed_image (Some out) self) /\
    has_channels (moire_switch (widgets self)) out.
Proof.
  intros Hbase Hold Cb Co. unfold update_processed_image.
  rewrite Hbase, Hold.
  pose proof (moire_start_channels old Co) as Cm.
  destruct (moire_switch (widgets self));
    (eexists; split; [reflexivity |]);
    repeat first
      [ exact Cb
      | exact Cm
      | match goal with
        | |- has_channels _ (if ?g then _ else _) => destruct g
        end
      | apply apply_crop_channels
      | apply blur_channels
      | apply adjust_sharpness_channels
      | apply map_samples_channels
      | apply rotate_image_channels
      | apply perspective_channels ].
Qed.

End LoadedState.

(** C9 - With a three-channel source image loaded, the channel count of
    the recompute output depends on the moire switch alone: three channels
    with the switch on (the pipeline starts from the pre-cleanup copy), one
    channel with the switch off (it starts from the baseline), whatever the
    other widgets hold.  The output is the image the recompute assigns
    before it displays it; with the switch off the display of the
    single-channel output raises.  [loaded] is the state the load leaves. *)
Theorem C9_output_channels_follow_moire_switch
    {cv : Cv2} {fs : FileSystem} (laws : Cv2Laws cv)
    (self : ImageProcessor) (file_path : string) (buffer : list Byte.byte)
    (decoded : ndarray) (ui : Widgets) :
  file_path <> EmptyString ->
  read_file file_path = Some buffer ->
  or_else (imdecode buffer)
          (or_else (imread (abspath file_path)) (imread file_path))
  = Some decoded ->
  0 < rows decoded -> 0 < cols decoded ->
  let loaded := state_of (load_image_from_path self file_path) in
  exists preCleanup baseline out,
    original_image_old loaded = Some preCleanup /\
    original_image loaded = Some baseline /\
    channels preCleanup = 3 /\
    channels baseline = 1 /\
    update_processed_image (set_widgets ui loaded) =
      shown (Some out) (set_processed_image (Some out) (set_widgets ui loaded)) /\
    processed_image (state_of (update_processed_image (set_widgets ui loaded)))
      = Some out /\
    has_channels (moire_switch ui) out /\
    (channels out = if moire_switch ui then 3 else 1) /\
    (moire_switch ui = false ->
     update_processed_image (set_widgets ui loaded) =
       Raised (set_processed_image (Some out) (set_widgets ui loaded))).
Proof.
  intros Hpath Hread Hdec Hr Hc loaded.
  destruct (load_success self file_path buffer decoded Hpath Hread Hdec Hr Hc)
    as (Cd & L).
  subst loaded. rewrite L. cbn [state_of].
  set (loaded := mk_processor _ _ _ _ _).
  pose proof (cleanup_channels decoded) as Cb.
  destruct (update_channels (set_widgets ui loaded) (cleanup decoded) decoded
              eq_refl eq_refl Cb Cd) as (out & U & Cout).
  exists decoded, (cleanup decoded), out. cbn [widgets set_widgets] in Cout.
  split; [reflexivity |]. split; [reflexivity |].
  split; [unfold channels; now rewrite (proj1 Cd) |].
  split; [unfold channels; now rewrite (proj1 Cb) |].
  split; [exact U |].
  split; [rewrite U; unfold shown; now destruct (display_image (Some out)) |].
  split; [exact Cout |].
  split; [unfold channels; now rewrite (proj1 Cout) |].
  intros Hoff. rewrite U. unfold shown, display_image.
  rewrite (proj1 Cout), Hoff. reflexivity.
Qed.

Lemma C9_output_channels_follow_moire_switch_witness :
  let ui := mk_widgets 150 10 0 0 0 true true 10 0 100 100 false 0 0 0 0 0 0 0 0 in
  let loaded := state_of (load_image_from_path (init default_widgets) "scan.png") in
  exists out,
    processed_image (state_of (update_processed_image (set_widgets ui loaded)))
      = Some out /\
    channels out = 3.
Proof.
  intros ui loaded.
  destruct (C9_output_channels_follow_moire_switch ref_lawful
              (init default_widgets) "scan.png"%string
              [Byte.x0a; Byte.x14; Byte.x1e; Byte.xc8; Byte.xd2; Byte.xdc]
              (mk_ndarray true [[[10; 20; 30]; [200; 210; 220]]]) ui)
    as (pre & baseline & out & _ & _ & _ & _ & _ & P & _ & C & _).
  - discriminate.
  - reflexivity.
  - reflexivity.
  - reflexivity.
  - reflexivity.
  - exists out. split; [exact P | exact C].
Defined.

(* ===================================================================== *)
(** ** Sharpening at the ends of its range *)
(* ===================================================================== *)

Lemma zip_with_fst_length {A B} (a : list A) (b : list B) :
  length a = length b -> zip_with (fun x _ => x) a b = a.
Proof.
  revert b. induction a as [| x a IH]; intros [| y b]; simpl; intros E;
    try reflexivity; try discriminate.
  f_equal. apply IH. now injection E.
Qed.

Lemma zip_with_snd_length {A B} (a : list A) (b : list B) :
  length a = length b -> zip_with (fun _ y => y) a b = b.
Proof.
  revert b. induction a as [| x a IH]; intros [| y b]; simpl; intros E;
    try reflexivity; try discriminate.
  f_equal. apply IH. now injection E.
Qed.

(** Two grids of one shape, combined by a projection. *)
Lemma zip3_fst (a b : grid) :
  map (map (@length Z)) a = map (map (@length Z)) b ->
  zip_with (zip_with (zip_with (fun x _ : Z => x))) a b = a.
Proof.
  revert b. induction a as [| r1 a IH]; intros [| r2 b]; simpl; intros E;
    try reflexivity; try discriminate.
  injection E as E1 E2. f_equal; [| now apply IH].
  clear - E1. revert r2 E1.
  induction r1 as [| p r1 IHr]; intros [| q r2]; simpl; intros E1;
    try reflexivity; try discriminate.
  injection E1 as Ep Er. f_equal; [now apply zip_with_fst_length | now apply IHr].
Qed.

Lemma zip3_snd (a b : grid) :
  map (map (@length Z)) a = map (map (@length Z)) b ->
  zip_with (zip_with (zip_with (fun _ y : Z => y))) a b = b.
Proof.
  revert b. induction a as [| r1 a IH]; intros [| r2 b]; simpl; intros E;
    try reflexivity; try discriminate.
  injection E as E1 E2. f_equal; [| now apply IH].
  clear - E1. revert r2 E1.
  induction r1 as [| p r1 IHr]; intros [| q r2]; simpl; intros E1;
    try reflexivity; try discriminate.
  injection E1 as Ep Er. f_equal; [now apply zip_with_snd_length | now apply IHr].
Qed.

Lemma Forall3_True (g : grid) : Forall (Forall (Forall (fun _ : Z => True))) g.
Proof.
  apply Forall_forall. intros r _. apply Forall_forall. intros p _.
  apply Forall_forall. intros s _. exact I.
Qed.

(** C8 - The sharpen stage with weight 0 returns its input sample for
    sample, and with weight 1 it returns the correlation of the input with
    the 3x3 kernel of centre [8*1 + 1 = 9] and eight neighbours [-1], the
    input itself entering the blend with weight 0. *)
Theorem C8_sharpen_weight_zero_and_one :
  (forall image : ndarray,
      u8_image image -> adjust_sharpness image 0 = image) /\
  (forall image : ndarray,
      adjust_sharpness image 1 =
      filter2D image [[-1; -1; -1]; [-1; 9; -1]; [-1; -1; -1]]%Q).
Proof.
  split.
  - intros [n g] Hu. unfold adjust_sharpness, addWeighted, zip_samples.
    cbn [ndim3 pixels]. f_equal.
    match goal with
    | |- zip_with _ g (pixels ?F) = _ => set (sharpened := F)
    end.
    rewrite (zip3_ext_Forall is_u8 (fun _ => True) _ (fun x _ => x) g
               (pixels sharpened) Hu (Forall3_True _)).
    + apply zip3_fst. symmetry. apply (filter2D_shape (mk_ndarray n g)).
    + intros x y Hx _. apply saturate_cast_u8; [exact Hx | ring].
  - intros [n g].
    change (adjust_sharpness (mk_ndarray n g) 1) with
      (addWeighted (mk_ndarray n g) (1 - 1)
         (filter2D (mk_ndarray n g) [[-1; -1; -1]; [-1; 9; -1]; [-1; -1; -1]]%Q)
         1 0).
    set (sharpened := filter2D _ _).
    unfold addWeighted, zip_samples. cbn [ndim3 pixels].
    replace sharpened with (mk_ndarray n (pixels sharpened)) at 2
      by reflexivity.
    f_equal.
    rewrite (zip3_ext_Forall (fun _ => True) is_u8 _ (fun _ y => y) g
               (pixels sharpened) (Forall3_True _) (filter2D_u8 _ _)).
    + apply zip3_snd. symmetry. apply (filter2D_shape (mk_ndarray n g)).
    + intros x y _ Hy. apply saturate_cast_u8; [exact Hy | ring].
Qed.

Lemma C8_sharpen_weight_zero_and_one_witness :
  adjust_sharpness (gray_image [[10; 20; 30]; [40; 50; 60]]) 0 =
  gray_image [[10; 20; 30]; [40; 50; 60]].
Proof.
  apply (proj1 C8_sharpen_weight_zero_and_one).
  repeat constructor; unfold is_u8; lia.
Defined.

(* ===================================================================== *)
(** ** The multi-scale blend *)
(* ===================================================================== *)

Lemma floor_below (q : Q) (n : Z) : (q < inject_Z n + 1)%Q -> Qfloor q <= n.
Proof.
  intros H. destruct (Z_le_gt_dec (Qfloor q) n) as [L | G]; [exact L | exfalso].
  assert (E : (inject_Z (n + 1) <= inject_Z (Qfloor q))%Q)
    by (rewrite <- Zle_Qle; lia).
  rewrite inject_Z_plus in E. pose proof (Qfloor_le q).
  change (inject_Z 1) with 1%Q in E. lra.
Qed.

(** Rounding to nearest does not go above an integer the value is less
    than a half above. *)
Lemma cvRound_below (q : Q) (n : Z) :
  (q < inject_Z n + (1 # 2))%Q -> cvRound q <= n.
Proof.
  intros H. unfold cvRound.
  pose proof (Qfloor_le q) as Hf.
  assert (Hn : Qfloor q <= n) by (apply floor_below; lra).
  assert (Hs : (1 # 2 <= q - inject_Z (Qfloor q))%Q -> Qfloor q + 1 <= n).
  { intros Hh. assert (F : (inject_Z (Qfloor q) < inject_Z n)%Q) by lra.
    rewrite <- Zlt_Qlt in F. lia. }
  destruct (q - inject_Z (Qfloor q) ?= 1 # 2)%Q eqn:C.
  - apply Qeq_alt in C. destruct (Z.even _); [exact Hn | apply Hs; lra].
  - exact Hn.
  - apply Qgt_alt in C. apply Hs. lra.
Qed.

Lemma inject_Z_u8 (z : Z) : is_u8 z -> (0 <= inject_Z z <= 255)%Q.
Proof.
  intros [H0 H1]. split.
  - change 0%Q with (inject_Z 0). now rewrite <- Zle_Qle.
  - change 255%Q with (inject_Z 255). now rewrite <- Zle_Qle.
Qed.









(* ===================================================================== *)
(** ** The canvas of a rotation *)
(* ===================================================================== *)

Lemma rotated_canvas_extents (w h angle : Z) :
  rotated_canvas w h (getRotationMatrix2D (w / 2, h / 2) angle 1) =
  (py_int_R (rotated_width w h angle), py_int_R (rotated_height w h angle)).
Proof.
  unfold rotated_canvas, getRotationMatrix2D, item2, rotated_width,
    rotated_height, radians.
  cbn [nth]. now rewrite !Rmult_1_l.
Qed.

Lemma py_int_R_floor (x : R) :
  (0 <= x)%R -> (IZR (py_int_R x) <= x < IZR (py_int_R x) + 1)%R.
Proof.
  intros H. unfold py_int_R. destruct (Rle_dec 0 x) as [_ | N]; [| contradiction].
  destruct (base_Int_part x) as [B1 B2]. lra.
Qed.

Lemma extent_nonneg (a b : Z) (s c : R) :
  0 <= a -> 0 <= b -> (0 <= IZR a * Rabs s + IZR b * Rabs c)%R.
Proof.
  intros Ha Hb. apply IZR_le in Ha, Hb.
  pose proof (Rabs_pos s). pose proof (Rabs_pos c).
  apply Rplus_le_le_0_compat; apply Rmult_le_pos; assumption.
Qed.

Lemma sqrt3_bounds : (17 / 10 < sqrt 3 < 18 / 10)%R.
Proof.
  split.
  - rewrite <- (sqrt_square (17 / 10)) by lra. apply sqrt_lt_1_alt. lra.
  - rewrite <- (sqrt_square (18 / 10)) by lra. apply sqrt_lt_1_alt. lra.
Qed.

(** The 10x10 frame turned by 30 degrees: both extents are [5 + 5*sqrt 3],
    about 13.66. *)
Lemma extents_10_10_30 :
  rotated_width 10 10 30 = (5 + 5 * sqrt 3)%R /\
  rotated_height 10 10 30 = (5 + 5 * sqrt 3)%R.
Proof.
  unfold rotated_width, rotated_height, radians.
  replace (30 * PI / 180)%R with (PI / 6)%R by field.
  rewrite sin_PI6, cos_PI6. pose proof sqrt3_bounds.
  rewrite !Rabs_pos_eq by lra. split; lra.
Qed.

(** C4 (as stated) fails on a 10x10 image turned by 30 degrees: the extents
    are about 13.66 and the canvas is 13x13, where rounding to nearest
    gives 14. *)
Lemma C4_counterexample : ~ canvas_is_rounded.
Proof.
  intros H. specialize (H 10 10 30).
  rewrite rotated_canvas_extents in H.
  destruct extents_10_10_30 as [Ew Eh]. rewrite Ew, Eh in H.
  pose proof sqrt3_bounds as B.
  assert (I : py_int_R (5 + 5 * sqrt 3) = 13).
  { unfold py_int_R. destruct (Rle_dec 0 (5 + 5 * sqrt 3)) as [_ | N]; [| lra].
    symmetry. apply Int_part_spec. lra. }
  rewrite I in H.
  destruct H as [N _]; [lia | lia | discriminate |].
  unfold nearest in N. rewrite Rabs_pos_eq in N by lra. lra.
Qed.

(** C4 (amended) - Rotation by 0 returns its input unchanged.  Rotation by
    a non-zero angle warps onto a canvas whose width and height are the
    extents [h*|sin| + w*|cos|] and [h*|cos| + w*|sin|] of the rotation
    matrix truncated to integers (rounded down, not to nearest). *)
Theorem C4_rotation_canvas_truncates {cv : Cv2} :
  (forall image : ndarray, rotate_image image 0 = image) /\
  (forall (image : ndarray) (angle : Z),
      angle <> 0 ->
      exists M,
        rotate_image image angle =
        warpAffine image M
          (py_int_R (rotated_width (cols image) (rows image) angle),
           py_int_R (rotated_height (cols image) (rows image) angle))) /\
  (forall w h angle : Z,
      0 <= w -> 0 <= h ->
      let '(new_width, new_height) :=
        rotated_canvas w h (getRotationMatrix2D (w / 2, h / 2) angle 1) in
      (IZR new_width <= rotated_width w h angle < IZR new_width + 1)%R /\
      (IZR new_height <= rotated_height w h angle < IZR new_height + 1)%R).
Proof.
  split; [reflexivity |]. split.
  - intros image angle Hangle. unfold rotate_image.
    apply Z.eqb_neq in Hangle. rewrite Hangle.
    rewrite rotated_canvas_extents. eexists. reflexivity.
  - intros w h angle Hw Hh. rewrite rotated_canvas_extents.
    split; apply py_int_R_floor; apply extent_nonneg; assumption.
Qed.

Lemma C4_rotation_canvas_truncates_witness :
  let '(new_width, new_height) :=
    rotated_canvas 10 10 (getRotationMatrix2D (10 / 2, 10 / 2) 30 1) in
  (IZR new_width <= rotated_width 10 10 30 < IZR new_width + 1)%R /\
  (IZR new_height <= rotated_height 10 10 30 < IZR new_height + 1)%R.
Proof.
  apply (proj2 (proj2 (C4_rotation_canvas_truncates (cv := ref_cv2))) 10 10 30);
    lia.
Defined.

(* ===================================================================== *)
(** ** Recompute, load and reset as state transitions *)
(* ===================================================================== *)

Lemma set_processed_image_same (self : ImageProcessor) :
  set_processed_image (processed_image self) self = self.
Proof. now destruct self. Qed.

Lemma shown_cases (image : option ndarray) (self : ImageProcessor) :
  shown image self = Returned self \/ shown image self = Raised self.
Proof. unfold shown. destruct (display_image image); [now left | now right]. Qed.

(** However a recompute ends, only the output image differs afterwards;
    without a baseline it returns and nothing differs. *)
Lemma update_frame {cv : Cv2} (self : ImageProcessor) :
  (exists out,
     update_processed_image self = Returned (set_processed_image out self) \/
     update_processed_image self = Raised (set_processed_image out self)) /\
  (original_image self = None -> update_processed_image self = Returned self).
Proof.
  unfold update_processed_image.
  destruct (original_image self) as [original |] eqn:Eo.
  - split; [| discriminate].
    destruct (moire_switch (widgets self)).
    + destruct (original_image_old self) as [old |].
      * eexists. apply shown_cases.
      * exists (processed_image self). right.
        now rewrite set_processed_image_same.
    + eexists. apply shown_cases.
  - split; [| reflexivity].
    exists (processed_image self). left. now rewrite set_processed_image_same.
Qed.

(** With the moire switch on and no pre-cleanup copy the recompute raises
    before it assigns anything. *)
Lemma update_without_copy {cv : Cv2} (self : ImageProcessor) :
  original_image self <> None ->
  moire_switch (widgets self) = true ->
  original_image_old self = None ->
  update_processed_image self = Raised self.
Proof.
  intros Ho Em Eold. unfold update_processed_image.
  destruct (original_image self) as [original |]; [| now elim Ho].
  rewrite Em, Eold. reflexivity.
Qed.

(** A recompute with a baseline does not read the output image: it
    overwrites it, unless it raises before it assigns anything. *)
Lemma update_overwrites {cv : Cv2} (self : ImageProcessor)
    (p : option ndarray) :
  original_image self <> None ->
  (moire_switch (widgets self) = true -> original_image_old self <> None) ->
  update_processed_image (set_processed_image p self) =
  update_processed_image self.
Proof.
  destruct self as [o pr path old ui].
  unfold update_processed_image, set_processed_image.
  cbn beta iota delta [original_image processed_image original_image_path
                       original_image_old widgets].
  intros Ho Hold. destruct o as [original |]; [| now elim Ho].
  destruct (moire_switch ui); [| reflexivity].
  destruct old as [old |]; [reflexivity | now elim (Hold eq_refl)].
Qed.

(** X1 - A recompute that returns leaves the baseline, the pre-cleanup
    copy, the stored path and the widgets as they were, and does not read
    its previous output: a second recompute right after it changes
    nothing. *)
Theorem recompute_writes_only_the_output
    {cv : Cv2} (self self' : ImageProcessor) :
  update_processed_image self = Returned self' ->
  buffers self' = buffers self /\
  widgets self' = widgets self /\
  update_processed_image self' = Returned self'.
Proof.
  intros H.
  destruct (update_frame self) as [[out [E | E]] N];
    rewrite E in H; [| discriminate H].
  injection H as <-.
  split; [reflexivity |]. split; [reflexivity |].
  destruct (original_image self) as [original |] eqn:Eo.
  - rewrite update_overwrites; [exact E | rewrite Eo; discriminate |].
    intros Em Eold.
    rewrite (update_without_copy self) in E;
      [discriminate E | rewrite Eo; discriminate | exact Em | exact Eold].
  - rewrite (N eq_refl) in E. injection E as E. rewrite <- E at 1 2.
    exact (N eq_refl).
Qed.

Lemma recompute_writes_only_the_output_witness :
  let self :=
    mk_processor (Some (gray_image [[22; 255]])) None (Some "scan.png"%string)
                 (Some (mk_ndarray true [[[10; 20; 30]; [200; 210; 220]]]))
                 (mk_widgets 150 10 0 0 0 true false 0 0 100 100 false
                             0 0 0 0 0 0 0 0) in
  let self' :=
    set_processed_image
      (Some (mk_ndarray true [[[40; 56; 70]; [255; 255; 255]]])) self in
  update_processed_image self = Returned self' /\
  update_processed_image self' = Returned self'.
Proof.
  intros self self'.
  assert (H : update_processed_image self = Returned self')
    by (vm_compute; reflexivity).
  split; [exact H |].
  exact (proj2 (proj2 (recompute_writes_only_the_output self self' H))).
Defined.

(** X2 - A load of a file that one of the three attempts decodes to an
    image that is not empty never returns: it stores the path, the decoded
    image as pre-cleanup copy, its cleanup as baseline and as output, leaves
    the widgets alone, and then raises at line 711, where it displays the
    single-channel output with a conversion that takes three channels.  The
    save button, enabled on the line after, stays as it was. *)
Theorem load_raises_at_the_display_of_the_baseline
    {cv : Cv2} {fs : FileSystem} (laws : Cv2Laws cv)
    (self : ImageProcessor) (file_path : string) (buffer : list Byte.byte)
    (decoded : ndarray) :
  file_path <> EmptyString ->
  read_file file_path = Some buffer ->
  or_else (imdecode buffer)
          (or_else (imread (abspath file_path)) (imread file_path))
  = Some decoded ->
  0 < rows decoded -> 0 < cols decoded ->
  display_image (Some (cleanup decoded)) = false /\
  load_image_from_path self file_path =
  Raised (mk_processor (Some (cleanup decoded)) (Some (cleanup decoded))
                       (Some file_path) (Some decoded) (widgets self)).
Proof.
  intros Hpath Hread Hdec Hr Hc.
  split; [apply display_cleanup |].
  now apply (load_success self file_path buffer decoded).
Qed.

Lemma load_raises_at_the_display_of_the_baseline_witness :
  let ui := mk_widgets 150 10 0 0 0 false false 0 0 100 100 false
                       0 0 0 0 0 0 0 0 in
  load_image_from_path (init ui) "scan.png" =
  Raised (mk_processor (Some (gray_image [[22; 255]]))
                       (Some (gray_image [[22; 255]]))
                       (Some "scan.png"%string)
                       (Some (mk_ndarray true [[[10; 20; 30]; [200; 210; 220]]]))
                       ui).
Proof.
  intros ui.
  refine (proj2 (load_raises_at_the_display_of_the_baseline ref_lawful (init ui)
                   "scan.png"%string
                   [Byte.x0a; Byte.x14; Byte.x1e; Byte.xc8; Byte.xd2; Byte.xdc]
                   (mk_ndarray true [[[10; 20; 30]; [200; 210; 220]]])
                   _ _ _ _ _)).
  - discriminate.
  - reflexivity.
  - reflexivity.
  - reflexivity.
  - reflexivity.
Defined.

(** Without a baseline a widget that is set runs a slot that returns at
    once: only the widget changes. *)
Lemma setValue_no_image {cv : Cv2}
    (get : Widgets -> Z) (put : Z -> Widgets -> Widgets) (v : Z)
    (s : ImageProcessor) :
  (forall u, get u = v -> put v u = u) ->
  original_image s = None ->
  setValue get put v s = Returned (set_widgets (put v (widgets s)) s).
Proof.
  intros Hlens Ho. unfold setValue.
  destruct (Z.eqb_spec (get (widgets s)) v) as [E | N].
  - rewrite (Hlens _ E). now destruct s.
  - apply update_frame. exact Ho.
Qed.

Lemma setChecked_no_image {cv : Cv2}
    (get : Widgets -> bool) (put : bool -> Widgets -> Widgets) (v : bool)
    (s : ImageProcessor) :
  (forall u, get u = v -> put v u = u) ->
  original_image s = None ->
  setChecked get put v s = Returned (set_widgets (put v (widgets s)) s).
Proof.
  intros Hlens Ho. unfold setChecked.
  destruct (Bool.eqb (get (widgets s)) v) eqn:E.
  - apply Bool.eqb_prop in E. rewrite (Hlens _ E). now destruct s.
  - apply update_frame. exact Ho.
Qed.

(** However a widget that is set ends, the buffers are as they were. *)
Lemma update_buffers {cv : Cv2} (s : ImageProcessor) (ui : Widgets) :
  exists s',
    buffers s' = buffers s /\
    (update_processed_image (set_widgets ui s) = Returned s' \/
     update_processed_image (set_widgets ui s) = Raised s').
Proof.
  destruct (update_frame (set_widgets ui s)) as [[out E] _].
  exists (set_processed_image out (set_widgets ui s)).
  split; [reflexivity | exact E].
Qed.

Lemma setValue_buffers {cv : Cv2}
    (get : Widgets -> Z) (put : Z -> Widgets -> Widgets) (v : Z)
    (s : ImageProcessor) :
  exists s',
    buffers s' = buffers s /\
    (setValue get put v s = Returned s' \/ setValue get put v s = Raised s').
Proof.
  unfold setValue. destruct (get (widgets s) =? v).
  - exists s. split; [reflexivity | now left].
  - apply update_buffers.
Qed.

Lemma setChecked_buffers {cv : Cv2}
    (get : Widgets -> bool) (put : bool -> Widgets -> Widgets) (v : bool)
    (s : ImageProcessor) :
  exists s',
    buffers s' = buffers s /\
    (setChecked get put v s = Returned s' \/ setChecked get put v s = Raised s').
Proof.
  unfold setChecked. destruct (Bool.eqb (get (widgets s)) v).
  - exists s. split; [reflexivity | now left].
  - apply update_buffers.
Qed.

(** Setting a widget to the value it holds gives the same widgets. *)
Ltac same_widgets :=
  let u := fresh "u" in
  let H := fresh "H" in
  intros u H; destruct u; cbn in *; now subst.

(** One widget of a reset without a baseline. *)
Ltac reset_step_no_image :=
  match goal with
  | |- context [setValue ?get ?put ?v ?s] =>
      rewrite (setValue_no_image get put v s ltac:(same_widgets) eq_refl)
  | |- context [setChecked ?get ?put ?v ?s] =>
      rewrite (setChecked_no_image get put v s ltac:(same_widgets) eq_refl)
  end;
  cbn [and_then set_widgets widgets
       with_contrast_slider with_brightness_slider with_sharpness_slider
       with_blur_slider with_rotate_slider with_moire_switch with_crop_switch
       with_crop_left_slider with_crop_top_slider with_crop_right_slider
       with_crop_bottom_slider with_perspective_switch
       with_top_left_x_slider with_top_left_y_slider
       with_top_right_x_slider with_top_right_y_slider
       with_bottom_left_x_slider with_bottom_left_y_slider
       with_bottom_right_x_slider with_bottom_right_y_slider
       original_image processed_image original_image_path original_image_old
       contrast_slider brightness_slider sharpness_slider blur_slider
       rotate_slider moire_switch crop_switch crop_left_slider
       crop_top_slider crop_right_slider crop_bottom_slider
       perspective_switch top_left_x_slider top_left_y_slider
       top_right_x_slider top_right_y_slider bottom_left_x_slider
       bottom_left_y_slider bottom_right_x_slider bottom_right_y_slider].

(** One widget of a reset: its slot returns, or the reset ends there. *)
Ltac reset_step :=
  match goal with
  | Hb : buffers ?s = buffers ?s0 |- context [setValue ?get ?put ?v ?s] =>
      let s' := fresh "s" in
      let E := fresh "E" in
      let Hb' := fresh "Hb" in
      destruct (setValue_buffers get put v s) as (s' & Hb' & [E | E]);
      rewrite E; cbn [and_then];
      apply (fun H => eq_trans H Hb) in Hb'; clear E Hb;
      [| exists s'; split; [reflexivity | exact Hb']]
  | Hb : buffers ?s = buffers ?s0 |- context [setChecked ?get ?put ?v ?s] =>
      let s' := fresh "s" in
      let E := fresh "E" in
      let Hb' := fresh "Hb" in
      destruct (setChecked_buffers get put v s) as (s' & Hb' & [E | E]);
      rewrite E; cbn [and_then];
      apply (fun H => eq_trans H Hb) in Hb'; clear E Hb;
      [| exists s'; split; [reflexivity | exact Hb']]
  end.

(** X3 - [reset_parameters] without an image returns, and only the widgets
    differ afterwards: each holds its default.  With a baseline that
    [display_image] does not take, as the single-channel baseline of every
    load is, it never returns: it raises in the slot of a widget it sets or,
    at the latest, at line 1129 where it displays the baseline; the
    baseline, the pre-cleanup copy and the path are as they were. *)
Theorem reset_returns_only_without_image {cv : Cv2} (self : ImageProcessor) :
  (original_image self = None ->
   reset_parameters self = Returned (set_widgets default_widgets self)) /\
  (forall baseline : ndarray,
     original_image self = Some baseline ->
     display_image (Some baseline) = false ->
     exists self',
       reset_parameters self = Raised self' /\ buffers self' = buffers self).
Proof.
  split.
  - intros Ho. destruct self as [o p path old ui]. cbn in Ho. subst o.
    destruct ui. unfold reset_parameters.
    do 20 reset_step_no_image.
    reflexivity.
  - intros baseline Ho Hd. unfold reset_parameters.
    assert (Hb : buffers self = buffers self) by reflexivity.
    do 20 reset_step.
    pose proof Hb as Hb'. unfold buffers in Hb'. injection Hb' as Eo _ _.
    rewrite Eo, Ho. unfold shown, copy.
    cbn [processed_image set_processed_image]. rewrite Hd.
    eexists. split; [reflexivity | exact Hb].
Qed.

Lemma reset_returns_only_without_image_witness :
  let ui := mk_widgets 150 10 0 0 0 true true 0 0 50 100 false
                       0 0 0 0 0 0 0 0 in
  let loaded :=
    mk_processor (Some (gray_image [[22; 255]])) (Some (gray_image [[58; 255]]))
                 (Some "scan.png"%string)
                 (Some (mk_ndarray true [[[10; 20; 30]; [200; 210; 220]]])) ui in
  reset_parameters (init ui) = Returned (init default_widgets) /\
  exists self',
    reset_parameters loaded = Raised self' /\ buffers self' = buffers loaded.
Proof.
  intros ui loaded. split.
  - exact (proj1 (reset_returns_only_without_image (init ui)) eq_refl).
  - exact (proj2 (reset_returns_only_without_image loaded)
                 (gray_image [[22; 255]]) eq_refl eq_refl).
Defined.

(* ===================================================================== *)
(** ** Contrast and brightness on 8-bit samples *)
(* ===================================================================== *)

Lemma map_samples_ext_Forall (P : Z -> Prop) (f g : Z -> Z) (img : ndarray) :
  Forall (Forall (Forall P)) (pixels img) ->
  (forall s, P s -> f s = g s) ->
  map_samples f img = map_samples g img.
Proof.
  intros H E. unfold map_samples. f_equal.
  induction H as [| row t Hrow _ IH]; simpl; [reflexivity |]. f_equal; [| exact IH].
  induction Hrow as [| p r Hp _ IHr]; simpl; [reflexivity |]. f_equal; [| exact IHr].
  induction Hp as [| s q Hs _ IHq]; simpl; [reflexivity |].
  f_equal; [now apply E | exact IHq].
Qed.

Lemma map_samples_id (img : ndarray) : map_samples (fun s => s) img = img.
Proof.
  destruct img as [n g]. unfold map_samples. cbn. f_equal.
  rewrite <- (map_id g) at 2. apply map_ext. intros row.
  rewrite <- (map_id row) at 2. apply map_ext. intros p. apply map_id.
Qed.

Lemma Forall3_map (P : Z -> Prop) (f : Z -> Z) (g : grid) :
  (forall s, P (f s)) -> Forall (Forall (Forall P)) (map (map (map f)) g).
Proof.
  intros H. apply Forall_map, Forall_forall. intros row _.
  apply Forall_map, Forall_forall. intros p _.
  apply Forall_map, Forall_forall. intros s _. apply H.
Qed.

(** Rounding to nearest does not go below an integer the value is not
    below. *)
Lemma cvRound_above (q : Q) (n : Z) : (inject_Z n <= q)%Q -> n <= cvRound q.
Proof.
  intros H. unfold cvRound.
  assert (Hn : n <= Qfloor q)
    by (rewrite <- (Qfloor_Z n); now apply Qfloor_resp_le).
  destruct (q - inject_Z (Qfloor q) ?= 1 # 2)%Q;
    [destruct (Z.even _) | |]; lia.
Qed.

Lemma Qabs_nonneg_id (q : Q) : (0 <= q)%Q -> (Qabs q == q)%Q.
Proof. apply Qabs_pos. Qed.

(** The stored sample when the scaled and shifted sample is not negative:
    the absolute value of [convertScaleAbs] is not seen. *)
Lemma convertScaleAbs_nonneg (alpha beta : Q) (s : Z) :
  (0 <= inject_Z s * alpha + beta)%Q ->
  saturate_cast (Qabs (inject_Z s * alpha + beta)) =
  clamp_u8 (inject_Z s * alpha + beta).
Proof.
  intros H. unfold saturate_cast, clamp_u8. f_equal.
  apply cvRound_comp. now apply Qabs_pos.
Qed.

(** X4 - On an 8-bit image the contrast stage with factor 1 and the
    brightness stage with offset 0 return their input sample for sample:
    the functions are no-ops there by themselves, not only through the
    conditions of the recompute. *)
Theorem contrast_one_and_brightness_zero_are_identities (image : ndarray) :
  u8_image image ->
  adjust_contrast image 1 = image /\ adjust_brightness image 0 = image.
Proof.
  intros Hu. split.
  - unfold adjust_contrast, convertScaleAbs.
    rewrite (map_samples_ext_Forall is_u8 _ (fun s => s) image Hu);
      [apply map_samples_id |].
    intros s Hs. apply saturate_cast_u8; [exact Hs |].
    rewrite Qabs_pos; [ring |].
    apply inject_Z_u8 in Hs. lra.
  - rewrite adjust_brightness_samples.
    rewrite (map_samples_ext_Forall is_u8 _ (fun s => s) image Hu);
      [apply map_samples_id |].
    intros s Hs. apply saturate_cast_u8; [exact Hs |].
    apply inject_Z_u8 in Hs. rewrite Qabs_pos.
    + change (inject_Z 0) with 0%Q. ring.
    + change (inject_Z 0) with 0%Q. lra.
Qed.

Lemma contrast_one_and_brightness_zero_are_identities_witness :
  adjust_contrast (gray_image [[0; 22; 255]]) 1 = gray_image [[0; 22; 255]] /\
  adjust_brightness (gray_image [[0; 22; 255]]) 0 = gray_image [[0; 22; 255]].
Proof.
  apply contrast_one_and_brightness_zero_are_identities.
  repeat constructor; unfold is_u8; lia.
Defined.

(** X5 - With an offset that is not negative the brightness stage is the
    clamp of the specification on every sample of an 8-bit image, and no
    sample comes out smaller than it went in. *)
Theorem brightness_nonnegative_offset_is_the_clamp (image : ndarray) (b : Z) :
  0 <= b -> u8_image image ->
  adjust_brightness image b = spec_brightness image b /\
  (forall s, is_u8 s ->
     s <= clamp_u8 (inject_Z s + inject_Z b * (255 # 100)) <= 255).
Proof.
  intros Hb Hu.
  assert (Hq : (0 <= inject_Z b * (255 # 100))%Q).
  { apply Qmult_le_0_compat; [| discriminate].
    change 0%Q with (inject_Z 0). now rewrite <- Zle_Qle. }
  split.
  - rewrite adjust_brightness_samples. unfold spec_brightness.
    apply (map_samples_ext_Forall is_u8 _ _ image Hu). intros s Hs.
    unfold saturate_cast, clamp_u8. f_equal. apply cvRound_comp.
    apply Qabs_pos. apply inject_Z_u8 in Hs. lra.
  - intros s Hs. unfold clamp_u8, saturate_u8.
    assert (s <= cvRound (inject_Z s + inject_Z b * (255 # 100)))
      by (apply cvRound_above; lra).
    unfold is_u8 in Hs. lia.
Qed.

Lemma brightness_nonnegative_offset_is_the_clamp_witness :
  adjust_brightness (gray_image [[0; 22; 250]]) 10 =
  spec_brightness (gray_image [[0; 22; 250]]) 10.
Proof.
  apply brightness_nonnegative_offset_is_the_clamp.
  - lia.
  - repeat constructor; unfold is_u8; lia.
Defined.

(** X6 - With a factor that is not negative the contrast stage stores the
    clamp of [sample*factor] on every sample of an 8-bit image; a factor
    of at most 1 never raises a sample and a factor of at least 1 never
    lowers one. *)
Theorem contrast_scales_and_clamps (image : ndarray) (factor : Q) :
  (0 <= factor)%Q -> u8_image image ->
  adjust_contrast image factor =
    map_samples (fun s => clamp_u8 (inject_Z s * factor)) image /\
  (forall s, is_u8 s ->
     ((factor <= 1)%Q -> clamp_u8 (inject_Z s * factor) <= s) /\
     ((1 <= factor)%Q -> s <= clamp_u8 (inject_Z s * factor))).
Proof.
  intros Hf Hu. split.
  - unfold adjust_contrast, convertScaleAbs.
    apply (map_samples_ext_Forall is_u8 _ _ image Hu). intros s Hs.
    unfold saturate_cast, clamp_u8. f_equal. apply cvRound_comp.
    apply inject_Z_u8 in Hs.
    assert (0 <= inject_Z s * factor)%Q by (apply Qmult_le_0_compat; lra).
    rewrite Qabs_pos; [ring | lra].
  - intros s Hs. pose proof (inject_Z_u8 s Hs) as Hq.
    unfold clamp_u8, saturate_u8. unfold is_u8 in Hs. split; intros H1.
    + assert (cvRound (inject_Z s * factor) <= s); [| lia].
      apply cvRound_below.
      assert (inject_Z s * factor <= inject_Z s)%Q by nra.
      lra.
    + assert (s <= cvRound (inject_Z s * factor)); [| lia].
      apply cvRound_above.
      nra.
Qed.

Lemma contrast_scales_and_clamps_witness :
  adjust_contrast (gray_image [[0; 22; 250]]) (3 # 2) =
  map_samples (fun s => clamp_u8 (inject_Z s * (3 # 2))) (gray_image [[0; 22; 250]]).
Proof.
  apply contrast_scales_and_clamps.
  - discriminate.
  - repeat constructor; unfold is_u8; lia.
Defined.

(* ===================================================================== *)
(** ** More on the crop stage *)
(* ===================================================================== *)

Lemma py_int_inject_Z (z : Z) : py_int (inject_Z z) = z.
Proof.
  unfold py_int. destruct (Qle_bool 0 (inject_Z z));
    [apply Qfloor_Z | apply Qceiling_Z].
Qed.

Lemma py_int_comp (q q' : Q) : (q == q')%Q -> py_int q = py_int q'.
Proof.
  intros E. unfold py_int.
  assert (B : Qle_bool 0 q = Qle_bool 0 q').
  { destruct (Qle_bool 0 q) eqn:L, (Qle_bool 0 q') eqn:L'; try reflexivity.
    - apply Qle_bool_iff in L. rewrite E in L. apply Qle_bool_iff in L.
      congruence.
    - apply Qle_bool_iff in L'. rewrite <- E in L'. apply Qle_bool_iff in L'.
      congruence. }
  rewrite B. destruct (Qle_bool 0 q');
    [apply Qfloor_comp | apply Qceiling_comp]; exact E.
Qed.

(** Truncation toward zero is monotone. *)
Lemma py_int_mono (q q' : Q) : (q <= q')%Q -> py_int q <= py_int q'.
Proof.
  intros H. unfold py_int.
  destruct (Qle_bool 0 q) eqn:L, (Qle_bool 0 q') eqn:L'.
  - now apply Qfloor_resp_le.
  - apply Qle_bool_iff in L.
    assert (N : ~ (0 <= q')%Q) by (rewrite <- Qle_bool_iff; congruence).
    exfalso. apply N. lra.
  - apply Qle_bool_iff in L'.
    assert (N : ~ (0 <= q)%Q) by (rewrite <- Qle_bool_iff; congruence).
    assert (C : Qceiling q <= 0).
    { change 0 with (Qceiling (inject_Z 0)). apply Qceiling_resp_le.
      change (inject_Z 0) with 0%Q. lra. }
    assert (F : 0 <= Qfloor q').
    { change 0 with (Qfloor (inject_Z 0)). now apply Qfloor_resp_le. }
    lia.
  - now apply Qceiling_resp_le.
Qed.

Lemma slice2_whole (img : ndarray) :
  rectangular (cols img) img ->
  slice2 img 0 (rows img) 0 (cols img) = img.
Proof.
  intros Hrect. destruct img as [n g]. unfold slice2, rows. cbn [pixels ndim3].
  f_equal. rewrite py_slice_all. now apply full_width_slice.
Qed.

(** X7 - A crop rectangle that is reversed or empty on both axes
    ([right <= left] and [bottom <= top], as fractions) returns the whole
    image: both ranges reset to the full frame. *)
Theorem crop_reversed_rectangle_keeps_the_image
    (image : ndarray) (l t r b : Q) :
  rectangular (cols image) image ->
  (r <= l)%Q -> (b <= t)%Q ->
  apply_crop image l t r b = image.
Proof.
  intros Hrect Hx Hy. unfold apply_crop, crop_box.
  assert (Hc : (0 <= inject_Z (cols image))%Q).
  { change 0%Q with (inject_Z 0). rewrite <- Zle_Qle.
    unfold cols. destruct (pixels image); lia. }
  assert (Hr : (0 <= inject_Z (rows image))%Q).
  { change 0%Q with (inject_Z 0). rewrite <- Zle_Qle. unfold rows. lia. }
  assert (Lx : py_int (inject_Z (cols image) * r)
               <= py_int (inject_Z (cols image) * l))
    by (apply py_int_mono; nra).
  assert (Ly : py_int (inject_Z (rows image) * b)
               <= py_int (inject_Z (rows image) * t))
    by (apply py_int_mono; nra).
  destruct (Z.geb_spec (py_int (inject_Z (cols image) * l))
                       (py_int (inject_Z (cols image) * r))); [| lia].
  destruct (Z.geb_spec (py_int (inject_Z (rows image) * t))
                       (py_int (inject_Z (rows image) * b))); [| lia].
  cbn [fst snd]. now apply slice2_whole.
Qed.

Lemma crop_reversed_rectangle_keeps_the_image_witness :
  apply_crop (gray_image [[1; 2; 3]; [4; 5; 6]]) (9 # 10) (8 # 10) (2 # 10) (1 # 10)
  = gray_image [[1; 2; 3]; [4; 5; 6]].
Proof.
  apply crop_reversed_rectangle_keeps_the_image.
  - repeat constructor.
  - discriminate.
  - discriminate.
Defined.

(** X8 - The crop with the full-frame fractions [(0, 0, 1, 1)] returns the
    image unchanged: the function is a no-op there by itself. *)
Theorem crop_full_frame_is_identity (image : ndarray) :
  rectangular (cols image) image ->
  apply_crop image 0 0 1 1 = image.
Proof.
  intros Hrect. unfold apply_crop, crop_box.
  rewrite !(py_int_comp (_ * 0) (inject_Z 0)) by ring.
  rewrite (py_int_comp (inject_Z (cols image) * 1) (inject_Z (cols image)))
    by ring.
  rewrite (py_int_comp (inject_Z (rows image) * 1) (inject_Z (rows image)))
    by ring.
  rewrite !py_int_inject_Z.
  destruct (0 >=? cols image), (0 >=? rows image); cbn [fst snd];
    now apply slice2_whole.
Qed.

Lemma crop_full_frame_is_identity_witness :
  apply_crop (gray_image [[1; 2; 3]; [4; 5; 6]]) 0 0 1 1
  = gray_image [[1; 2; 3]; [4; 5; 6]].
Proof.
  apply crop_full_frame_is_identity. repeat constructor.
Defined.

Lemma nth_error_py_slice {A} (l : list A) (lo hi : Z) (i : nat) :
  0 <= lo <= hi -> hi <= Z.of_nat (length l) ->
  Z.of_nat i < hi - lo ->
  nth_error (py_slice l lo hi) i = nth_error l (Z.to_nat lo + i).
Proof.
  intros H1 H2 Hi. rewrite py_slice_in_range by assumption.
  rewrite nth_error_firstn.
  destruct (Nat.ltb_spec i (Z.to_nat (hi - lo))) as [_ | N]; [| lia].
  apply nth_error_skipn.
Qed.

(** X9 - The crop keeps the pixels of its rectangle in place: for a
    non-empty image and fractions in [0, 1], the pixel of row [i] and
    column [j] of the output is the pixel of row [top + i] and column
    [left + j] of the input. *)
Theorem crop_output_pixels_come_from_the_rectangle
    (image : ndarray) (l t r b : Q) (i j : nat) :
  0 < cols image -> 0 < rows image ->
  rectangular (cols image) image ->
  (0 <= l <= 1)%Q -> (0 <= t <= 1)%Q -> (0 <= r <= 1)%Q -> (0 <= b <= 1)%Q ->
  let '(x0, y0, x1, y1) := crop_box (cols image) (rows image) l t r b in
  Z.of_nat i < y1 - y0 -> Z.of_nat j < x1 - x0 ->
  pixel_at (apply_crop image l t r b) i j =
  pixel_at image (Z.to_nat y0 + i) (Z.to_nat x0 + j).
Proof.
  intros Hw Hh Hrect Hl Ht Hr Hb. unfold apply_crop.
  destruct (crop_box (cols image) (rows image) l t r b)
    as [[[x0 y0] x1] y1] eqn:E.
  pose proof (crop_box_bounds _ _ _ _ _ _ _ _ _ _ Hw Hh Hl Ht Hr Hb E)
    as (Bx & Bx1 & By & By1).
  intros Hi Hj. unfold pixel_at, slice2. cbn [pixels].
  rewrite nth_error_map.
  rewrite nth_error_py_slice by (unfold rows in By1; lia).
  destruct (nth_error (pixels image) (Z.to_nat y0 + i)) as [row |] eqn:Erow;
    [| reflexivity].
  cbn [option_map].
  apply nth_error_py_slice; try lia.
  unfold rectangular in Hrect.
  rewrite Forall_forall in Hrect.
  rewrite (Hrect row (nth_error_In _ _ Erow)). exact Bx1.
Qed.

Lemma crop_output_pixels_come_from_the_rectangle_witness :
  pixel_at (apply_crop (gray_image [[1; 2; 3; 4]; [5; 6; 7; 8]])
                       (1 # 2) (1 # 2) 1 1) 0 1 =
  pixel_at (gray_image [[1; 2; 3; 4]; [5; 6; 7; 8]]) 1 3.
Proof.
  pose proof (crop_output_pixels_come_from_the_rectangle
                (gray_image [[1; 2; 3; 4]; [5; 6; 7; 8]])
                (1 # 2) (1 # 2) 1 1 0 1) as W.
  cbn in W. apply W; try lia; try (split; discriminate).
  repeat constructor.
Defined.

(* ===================================================================== *)
(** ** More on the canvas of a rotation *)
(* ===================================================================== *)

Lemma abs_sin_cos_bounds (a : R) :
  (0 <= Rabs (sin a) <= 1 /\ 0 <= Rabs (cos a) <= 1 /\
   1 <= Rabs (sin a) + Rabs (cos a))%R.
Proof.
  pose proof (Rabs_pos (sin a)) as Hs. pose proof (Rabs_pos (cos a)) as Hc.
  pose proof (SIN_bound a) as Bs. pose proof (COS_bound a) as Bc.
  assert (Ss : (Rabs (sin a) <= 1)%R) by (apply Rabs_le; lra).
  assert (Sc : (Rabs (cos a) <= 1)%R) by (apply Rabs_le; lra).
  repeat split; try assumption.
  pose proof (sin2_cos2 a) as P. unfold Rsqr in P.
  assert (Q2 : (Rabs (sin a) * Rabs (sin a) + Rabs (cos a) * Rabs (cos a) = 1)%R).
  { rewrite <- !Rabs_mult. rewrite !Rabs_pos_eq by nra. exact P. }
  nra.
Qed.

Lemma py_int_R_IZR (z : Z) : 0 <= z -> py_int_R (IZR z) = z.
Proof.
  intros H. unfold py_int_R.
  destruct (Rle_dec 0 (IZR z)) as [_ | N]; [| exfalso; apply N; now apply IZR_le].
  symmetry. apply Int_part_spec. lra.
Qed.

Lemma py_int_R_between (x : R) (lo hi : Z) :
  (0 <= x)%R -> (IZR lo <= x <= IZR hi)%R -> lo <= py_int_R x <= hi.
Proof.
  intros H0 [Hlo Hhi]. destruct (py_int_R_floor x H0) as [F1 F2]. split.
  - assert (L : (IZR lo < IZR (py_int_R x + 1))%R) by (rewrite plus_IZR; lra).
    apply lt_IZR in L. lia.
  - apply le_IZR. lra.
Qed.

(** X10 - The canvas of a rotation is never degenerate: for an image of at
    least one pixel and any angle, the new width and the new height are
    at least the smaller side of the image and at most the sum of its
    sides. *)
Theorem rotation_canvas_is_never_degenerate (w h angle : Z) :
  1 <= w -> 1 <= h ->
  let '(new_width, new_height) :=
    rotated_canvas w h (getRotationMatrix2D (w / 2, h / 2) angle 1) in
  Z.min w h <= new_width <= w + h /\ Z.min w h <= new_height <= w + h.
Proof.
  intros Hw Hh. rewrite rotated_canvas_extents.
  destruct (abs_sin_cos_bounds (radians angle)) as (Bs & Bc & B1).
  assert (Rw : (1 <= IZR w)%R) by (now apply IZR_le).
  assert (Rh : (1 <= IZR h)%R) by (now apply IZR_le).
  assert (Mw : (IZR (Z.min w h) <= IZR w)%R) by (apply IZR_le; lia).
  assert (Mh : (IZR (Z.min w h) <= IZR h)%R) by (apply IZR_le; lia).
  assert (M1 : (1 <= IZR (Z.min w h))%R) by (apply IZR_le; lia).
  unfold rotated_width, rotated_height.
  split; apply py_int_R_between; try rewrite plus_IZR; try nra.
Qed.

Lemma rotation_canvas_is_never_degenerate_witness :
  let '(new_width, new_height) :=
    rotated_canvas 10 4 (getRotationMatrix2D (10 / 2, 4 / 2) 37 1) in
  Z.min 10 4 <= new_width <= 10 + 4 /\ Z.min 10 4 <= new_height <= 10 + 4.
Proof.
  apply (rotation_canvas_is_never_degenerate 10 4 37); lia.
Defined.

Lemma radians_quarter (k : Z) : radians (90 * k) = (IZR k * (PI / 2))%R.
Proof. unfold radians. rewrite mult_IZR. field. Qed.

(** X11 - A quarter turn swaps the sides of the canvas and a half turn
    keeps them: rotation by 90 or -90 degrees warps onto a canvas
    [height] wide and [width] high, rotation by 180 or -180 degrees onto a
    canvas [width] wide and [height] high. *)
Theorem rotation_by_right_angles (w h : Z) :
  0 <= w -> 0 <= h ->
  rotated_canvas w h (getRotationMatrix2D (w / 2, h / 2) 90 1) = (h, w) /\
  rotated_canvas w h (getRotationMatrix2D (w / 2, h / 2) (-90) 1) = (h, w) /\
  rotated_canvas w h (getRotationMatrix2D (w / 2, h / 2) 180 1) = (w, h) /\
  rotated_canvas w h (getRotationMatrix2D (w / 2, h / 2) (-180) 1) = (w, h).
Proof.
  intros Hw Hh. rewrite !rotated_canvas_extents.
  unfold rotated_width, rotated_height.
  change 90 with (90 * 1). change (-90) with (90 * -1).
  change 180 with (90 * 2). change (-180) with (90 * -2).
  rewrite !radians_quarter.
  replace (1 * (PI / 2))%R with (PI / 2)%R by ring.
  replace (-1 * (PI / 2))%R with (- (PI / 2))%R by ring.
  replace (2 * (PI / 2))%R with PI by field.
  replace (-2 * (PI / 2))%R with (- PI)%R by field.
  rewrite !sin_neg, !cos_neg, sin_PI2, cos_PI2, sin_PI, cos_PI.
  assert (A : Rabs (-1) = 1%R) by (unfold Rabs; destruct Rcase_abs; lra).
  rewrite !Rabs_Ropp, Rabs_R0, Rabs_R1, ?A.
  replace (IZR h * 1 + IZR w * 0)%R with (IZR h) by ring.
  replace (IZR h * 0 + IZR w * 1)%R with (IZR w) by ring.
  rewrite !py_int_R_IZR by assumption. repeat split.
Qed.

Lemma rotation_by_right_angles_witness :
  rotated_canvas 10 4 (getRotationMatrix2D (10 / 2, 4 / 2) 90 1) = (4, 10).
Proof.
  apply (rotation_by_right_angles 10 4); lia.
Defined.

(* ===================================================================== *)
(** ** The canvas of the perspective warp *)
(* ===================================================================== *)

Lemma py_min4_spec (a b c d : Q) :
  let m := py_min [a; b; c; d] in
  ((m <= a /\ m <= b /\ m <= c /\ m <= d) /\
   (m == a \/ m == b \/ m == c \/ m == d))%Q.
Proof.
  cbn [py_min fold_left].
  destruct (Q.min_spec a b) as [[L1 E1] | [L1 E1]];
  destruct (Q.min_spec (Qmin a b) c) as [[L2 E2] | [L2 E2]];
  destruct (Q.min_spec (Qmin (Qmin a b) c) d) as [[L3 E3] | [L3 E3]];
  rewrite ?E3, ?E2, ?E1 in *; split; try (repeat split; lra);
  rewrite ?E3, ?E2, ?E1; auto using Qeq_refl.
Qed.

Lemma py_max4_spec (a b c d : Q) :
  let m := py_max [a; b; c; d] in
  ((a <= m /\ b <= m /\ c <= m /\ d <= m) /\
   (m == a \/ m == b \/ m == c \/ m == d))%Q.
Proof.
  cbn [py_max fold_left].
  destruct (Q.max_spec a b) as [[L1 E1] | [L1 E1]];
  destruct (Q.max_spec (Qmax a b) c) as [[L2 E2] | [L2 E2]];
  destruct (Q.max_spec (Qmax (Qmax a b) c) d) as [[L3 E3] | [L3 E3]];
  rewrite ?E3, ?E2, ?E1 in *; split; try (repeat split; lra);
  rewrite ?E3, ?E2, ?E1; auto using Qeq_refl.
Qed.

Lemma inject_Z_pred (z : Z) : (inject_Z z - 1 == inject_Z (z - 1))%Q.
Proof. unfold Qeq. simpl. lia. Qed.

(** The canvas the perspective stage warps onto is the canvas of its
    destination points. *)
Lemma apply_perspective_transform_canvas {cv : Cv2} (image : ndarray)
    (a1 a2 a3 a4 a5 a6 a7 a8 : Q) :
  exists M,
    apply_perspective_transform image a1 a2 a3 a4 a5 a6 a7 a8 =
    warpPerspective image M
      (perspective_canvas
         (perspective_dst_points (inject_Z (cols image)) (inject_Z (rows image))
                                 a1 a2 a3 a4 a5 a6 a7 a8)).
Proof. eexists. reflexivity. Qed.

(** X12 - The perspective stage sizes its canvas by the distance between
    the extreme destination points, which lie on the first and last pixel:
    when the four horizontal offsets are zero the canvas is one pixel
    narrower than the image, and when the four vertical offsets are zero
    it is one pixel lower. *)
Theorem perspective_canvas_loses_a_pixel
    {cv : Cv2} (image : ndarray) (a1 a2 a3 a4 a5 a6 a7 a8 : Q) :
  1 <= cols image -> 1 <= rows image ->
  exists M new_width new_height,
    apply_perspective_transform image a1 a2 a3 a4 a5 a6 a7 a8 =
      warpPerspective image M (new_width, new_height) /\
    ((a1 == 0 /\ a3 == 0 /\ a5 == 0 /\ a7 == 0)%Q ->
       new_width = cols image - 1) /\
    ((a2 == 0 /\ a4 == 0 /\ a6 == 0 /\ a8 == 0)%Q ->
       new_height = rows image - 1).
Proof.
  intros Hw Hh.
  destruct (apply_perspective_transform_canvas image a1 a2 a3 a4 a5 a6 a7 a8)
    as [M E].
  exists M. eexists. eexists. split; [exact E |].
  assert (Qw : (1 <= inject_Z (cols image))%Q)
    by (change 1%Q with (inject_Z 1); now rewrite <- Zle_Qle).
  assert (Qh : (1 <= inject_Z (rows image))%Q)
    by (change 1%Q with (inject_Z 1); now rewrite <- Zle_Qle).
  unfold perspective_dst_points. cbn [map fst snd].
  split.
  - intros (E1 & E3 & E5 & E7).
    match goal with
    | |- py_int (py_max [?a; ?b; ?c; ?d] - py_min _) = _ =>
        destruct (py_min4_spec a b c d) as [(m1 & m2 & m3 & m4) mE];
        destruct (py_max4_spec a b c d) as [(M1 & M2 & M3 & M4) ME];
        set (mx := py_max [a; b; c; d]) in *;
        set (mn := py_min [a; b; c; d]) in *
    end.
    rewrite <- (py_int_inject_Z (cols image - 1)). apply py_int_comp.
    rewrite <- inject_Z_pred.
    rewrite E1, E3, E5, E7 in *.
    assert (mn == 0)%Q by (destruct mE as [e | [e | [e | e]]]; lra).
    assert (mx == inject_Z (cols image) - 1)%Q
      by (destruct ME as [e | [e | [e | e]]]; lra).
    lra.
  - intros (E2 & E4 & E6 & E8).
    match goal with
    | |- py_int (py_max [?a; ?b; ?c; ?d] - py_min _) = _ =>
        destruct (py_min4_spec a b c d) as [(m1 & m2 & m3 & m4) mE];
        destruct (py_max4_spec a b c d) as [(M1 & M2 & M3 & M4) ME];
        set (mx := py_max [a; b; c; d]) in *;
        set (mn := py_min [a; b; c; d]) in *
    end.
    rewrite <- (py_int_inject_Z (rows image - 1)). apply py_int_comp.
    rewrite <- inject_Z_pred.
    rewrite E2, E4, E6, E8 in *.
    assert (mn == 0)%Q by (destruct mE as [e | [e | [e | e]]]; lra).
    assert (mx == inject_Z (rows image) - 1)%Q
      by (destruct ME as [e | [e | [e | e]]]; lra).
    lra.
Qed.

Lemma perspective_canvas_loses_a_pixel_witness :
  exists M new_width new_height,
    apply_perspective_transform (gray_image [[1; 2; 3; 4]; [5; 6; 7; 8]])
      0 (1 # 2) 0 0 0 0 0 0 =
      warpPerspective (gray_image [[1; 2; 3; 4]; [5; 6; 7; 8]]) M
                      (new_width, new_height) /\
    new_width = 3.
Proof.
  destruct (perspective_canvas_loses_a_pixel
              (gray_image [[1; 2; 3; 4]; [5; 6; 7; 8]])
              0 (1 # 2) 0 0 0 0 0 0)
    as (M & nw & nh & E & W & _).
  - cbn. lia.
  - cbn. lia.
  - exists M, nw, nh. split; [exact E |].
    rewrite W; [reflexivity |]. repeat split; reflexivity.
Defined.

(** X13 - With corner offsets in [-1, 1] (the range of the corner sliders)
    the canvas of the perspective stage is at most one pixel short of
    twice the image in each direction, and its sides are never
    negative. *)
Theorem perspective_canvas_bounds
    {cv : Cv2} (image : ndarray) (a1 a2 a3 a4 a5 a6 a7 a8 : Q) :
  1 <= cols image -> 1 <= rows image ->
  Forall (fun a => -1 <= a <= 1)%Q [a1; a2; a3; a4; a5; a6; a7; a8] ->
  exists M new_width new_height,
    apply_perspective_transform image a1 a2 a3 a4 a5 a6 a7 a8 =
      warpPerspective image M (new_width, new_height) /\
    0 <= new_width <= 2 * cols image - 1 /\
    0 <= new_height <= 2 * rows image - 1.
Proof.
  intros Hw Hh Ha.
  repeat match goal with
         | H : Forall _ (_ :: _) |- _ => inversion H; clear H; subst
         end.
  destruct (apply_perspective_transform_canvas image a1 a2 a3 a4 a5 a6 a7 a8)
    as [M E].
  exists M. eexists. eexists. split; [exact E |].
  assert (Qw : (1 <= inject_Z (cols image))%Q)
    by (change 1%Q with (inject_Z 1); now rewrite <- Zle_Qle).
  assert (Qh : (1 <= inject_Z (rows image))%Q)
    by (change 1%Q with (inject_Z 1); now rewrite <- Zle_Qle).
  assert (I2 : forall z, (2 * inject_Z z - 1 == inject_Z (2 * z - 1))%Q)
    by (intros z; unfold Qeq; simpl; lia).
  unfold perspective_dst_points. cbn [map fst snd].
  split.
  - match goal with
    | |- _ <= py_int (py_max [?a; ?b; ?c; ?d] - py_min _) <= _ =>
        destruct (py_min4_spec a b c d) as [(m1 & m2 & m3 & m4) mE];
        destruct (py_max4_spec a b c d) as [(M1 & M2 & M3 & M4) ME];
        set (mx := py_max [a; b; c; d]) in *;
        set (mn := py_min [a; b; c; d]) in *
    end.
    rewrite <- (py_int_inject_Z 0), <- (py_int_inject_Z (2 * cols image - 1)).
    split; apply py_int_mono.
    + change (inject_Z 0) with 0%Q. lra.
    + rewrite <- I2.
      destruct mE as [e | [e | [e | e]]], ME as [e' | [e' | [e' | e']]];
        rewrite e, e'; nra.
  - match goal with
    | |- _ <= py_int (py_max [?a; ?b; ?c; ?d] - py_min _) <= _ =>
        destruct (py_min4_spec a b c d) as [(m1 & m2 & m3 & m4) mE];
        destruct (py_max4_spec a b c d) as [(M1 & M2 & M3 & M4) ME];
        set (mx := py_max [a; b; c; d]) in *;
        set (mn := py_min [a; b; c; d]) in *
    end.
    rewrite <- (py_int_inject_Z 0), <- (py_int_inject_Z (2 * rows image - 1)).
    split; apply py_int_mono.
    + change (inject_Z 0) with 0%Q. lra.
    + rewrite <- I2.
      destruct mE as [e | [e | [e | e]]], ME as [e' | [e' | [e' | e']]];
        rewrite e, e'; nra.
Qed.

Lemma perspective_canvas_bounds_witness :
  exists M new_width new_height,
    apply_perspective_transform (gray_image [[1; 2; 3; 4]; [5; 6; 7; 8]])
      (-1) (1 # 2) 1 0 0 0 0 (-1 # 2) =
      warpPerspective (gray_image [[1; 2; 3; 4]; [5; 6; 7; 8]]) M
                      (new_width, new_height) /\
    0 <= new_width <= 7 /\ 0 <= new_height <= 3.
Proof.
  destruct (perspective_canvas_bounds
              (gray_image [[1; 2; 3; 4]; [5; 6; 7; 8]])
              (-1) (1 # 2) 1 0 0 0 0 (-1 # 2))
    as (M & nw & nh & E & W & H).
  - cbn. lia.
  - cbn. lia.
  - repeat constructor; discriminate.
  - exists M, nw, nh. split; [exact E |]. cbn in W, H. split; lia.
Defined.

(* ===================================================================== *)
(** ** The size an image is displayed at *)
(* ===================================================================== *)

Lemma py_min2_spec (a b : Q) :
  ((a <= b /\ py_min2 a b = a) \/ (b < a /\ py_min2 a b = b))%Q.
Proof.
  unfold py_min2, Qlt_bool. destruct (Qle_bool a b) eqn:L; cbn.
  - left. split; [now apply Qle_bool_iff | reflexivity].
  - right. split; [| reflexivity]. apply Qnot_le_lt. intros H.
    apply Qle_bool_iff in H. congruence.
Qed.

Lemma py_int_bounds (lo hi : Z) (q : Q) :
  (inject_Z lo <= q)%Q -> (q <= inject_Z hi)%Q -> lo <= py_int q <= hi.
Proof.
  intros Hlo Hhi. split.
  - rewrite <- (py_int_inject_Z lo). now apply py_int_mono.
  - rewrite <- (py_int_inject_Z hi). now apply py_int_mono.
Qed.

(** X14 - An image of at least one pixel is displayed at a size that fits
    the display area (the label less a margin of 20, at least 200 each
    way): neither side exceeds the area or is negative, and one side
    fills the area to within a pixel. *)
Theorem display_size_fits_the_label (label_w label_h w h : Z) :
  0 < w -> 0 < h ->
  let display_width := Z.max (label_w - 20) 200 in
  let display_height := Z.max (label_h - 20) 200 in
  exists final_width final_height,
    display_size label_w label_h w h = Some (final_width, final_height) /\
    0 <= final_width <= display_width /\
    0 <= final_height <= display_height /\
    (display_width - 1 <= final_width \/ display_height - 1 <= final_height).
Proof.
  intros Hw Hh dw dh. unfold display_size. fold dw dh.
  destruct (Z.eqb_spec w 0); [lia |]. destruct (Z.eqb_spec h 0); [lia |].
  cbn [orb]. eexists. eexists. split; [reflexivity |].
  assert (Qw : (0 < inject_Z w)%Q)
    by (change 0%Q with (inject_Z 0); now rewrite <- Zlt_Qlt).
  assert (Qh : (0 < inject_Z h)%Q)
    by (change 0%Q with (inject_Z 0); now rewrite <- Zlt_Qlt).
  assert (Dw : (200 <= inject_Z dw)%Q)
    by (change 200%Q with (inject_Z 200); rewrite <- Zle_Qle; lia).
  assert (Dh : (200 <= inject_Z dh)%Q)
    by (change 200%Q with (inject_Z 200); rewrite <- Zle_Qle; lia).
  assert (Ew : (inject_Z w * (inject_Z dw / inject_Z w) == inject_Z dw)%Q)
    by (apply Qmult_div_r; lra).
  assert (Eh : (inject_Z h * (inject_Z dh / inject_Z h) == inject_Z dh)%Q)
    by (apply Qmult_div_r; lra).
  set (rw := (inject_Z dw / inject_Z w)%Q) in *.
  set (rh := (inject_Z dh / inject_Z h)%Q) in *.
  assert (Pw : (0 < rw)%Q) by nra.
  assert (Ph : (0 < rh)%Q) by nra.
  assert (Iw : (inject_Z dw - 1 == inject_Z (dw - 1))%Q) by apply inject_Z_pred.
  assert (Ih : (inject_Z dh - 1 == inject_Z (dh - 1))%Q) by apply inject_Z_pred.
  destruct (py_min2_spec rw rh) as [[L ->] | [L ->]].
  - split; [apply py_int_bounds; change (inject_Z 0) with 0%Q; nra |].
    split; [apply py_int_bounds; change (inject_Z 0) with 0%Q; nra |].
    left. apply (py_int_bounds (dw - 1) dw); lra.
  - split; [apply py_int_bounds; change (inject_Z 0) with 0%Q; nra |].
    split; [apply py_int_bounds; change (inject_Z 0) with 0%Q; nra |].
    right. apply (py_int_bounds (dh - 1) dh); lra.
Qed.

Lemma display_size_fits_the_label_witness :
  display_size 620 420 300 100 = Some (600, 200).
Proof.
  destruct (display_size_fits_the_label 620 420 300 100) as (fw & fh & E & _);
    [lia | lia |].
  rewrite E. vm_compute in E. injection E as <- <-. reflexivity.
Defined.

(* ===================================================================== *)
(** ** Sharpening a flat image *)
(* ===================================================================== *)

Lemma borderInterpolate_range (p len : Z) :
  0 < len -> -1 <= p <= len -> 0 <= borderInterpolate p len < len.
Proof.
  intros Hlen Hp. unfold borderInterpolate.
  destruct (Z.leb_spec 0 p), (Z.ltb_spec p len); cbn [andb]; try lia;
    destruct (Z.eqb_spec len 1); try lia;
    destruct (Z.ltb_spec p 0); lia.
Qed.

Lemma borderInterpolate_index (n len : nat) (p : Z) :
  (n < len)%nat -> Z.of_nat n - 1 <= p <= Z.of_nat n + 1 ->
  (Z.to_nat (borderInterpolate p (Z.of_nat len)) < len)%nat.
Proof.
  intros Hn Hp.
  pose proof (borderInterpolate_range p (Z.of_nat len)) as B.
  lia.
Qed.

(** The correlation of a 3x3 kernel at a place whose neighbourhood holds
    one value: the value times the sum of the kernel. *)
Lemma correlate_flat (g : grid) (k00 k01 k02 k10 k11 k12 k20 k21 k22 : Q)
    (i j c : nat) (v : Z) :
  (i < length g)%nat -> (j < grid_width g)%nat ->
  (forall y x, (y < length g)%nat -> (x < grid_width g)%nat ->
               sample_at g y x c = v) ->
  (correlate g [[k00; k01; k02]; [k10; k11; k12]; [k20; k21; k22]] i j c ==
   (k00 + k01 + k02 + k10 + k11 + k12 + k20 + k21 + k22) * inject_Z v)%Q.
Proof.
  intros Hi Hj Hs. unfold correlate.
  cbn [imap imap_from Qsum fold_right length].
  change (Z.of_nat 3 / 2) with 1.
  rewrite !Hs by (eapply borderInterpolate_index; [eassumption | lia]).
  ring.
Qed.

Lemma imap_from_ext_nth {A B} (f : nat -> A -> B) (g : A -> B) (i0 : nat)
    (l : list A) :
  (forall k x, nth_error l k = Some x -> f (i0 + k)%nat x = g x) ->
  imap_from f i0 l = map g l.
Proof.
  revert i0. induction l as [| a t IH]; intros i0 H; cbn; [reflexivity |].
  f_equal.
  - rewrite <- (H 0%nat a eq_refl). now rewrite Nat.add_0_r.
  - apply IH. intros k x Hk. rewrite <- (H (S k) x Hk). f_equal. lia.
Qed.

Lemma imap_from_id_nth {A} (f : nat -> A -> A) (i0 : nat) (l : list A) :
  (forall k x, nth_error l k = Some x -> f (i0 + k)%nat x = x) ->
  imap_from f i0 l = l.
Proof.
  intros H. rewrite (imap_from_ext_nth f (fun x => x) i0 l H). apply map_id.
Qed.

Lemma nth_error_repeat_inv {A} (a x : A) (n k : nat) :
  nth_error (repeat a n) k = Some x -> x = a /\ (k < n)%nat.
Proof.
  intros H. split.
  - apply nth_error_In in H. now apply repeat_spec in H.
  - rewrite <- (repeat_length a n). apply nth_error_Some. congruence.
Qed.

Lemma sample_at_flat (p : pixel) (w h y x c : nat) :
  (y < h)%nat -> (x < w)%nat ->
  sample_at (repeat (repeat p w) h) y x c = nth c p 0.
Proof.
  intros Hy Hx. unfold sample_at.
  rewrite (nth_error_nth _ _ _ (nth_error_repeat (repeat p w) Hy)).
  now rewrite (nth_error_nth _ _ _ (nth_error_repeat p Hx)).
Qed.

(** A 3x3 kernel whose entries sum to 1 leaves a flat 8-bit image as it
    is. *)
Lemma filter2D_flat (color : bool) (p : pixel) (w h : nat)
    (k00 k01 k02 k10 k11 k12 k20 k21 k22 : Q) :
  Forall is_u8 p ->
  (k00 + k01 + k02 + k10 + k11 + k12 + k20 + k21 + k22 == 1)%Q ->
  filter2D (flat_image color p w h)
           [[k00; k01; k02]; [k10; k11; k12]; [k20; k21; k22]] =
  flat_image color p w h.
Proof.
  intros Hu Hk. unfold filter2D, flat_image. cbn [ndim3 pixels]. f_equal.
  set (g := repeat (repeat p w) h).
  assert (Lg : length g = h) by apply repeat_length.
  unfold imap.
  apply imap_from_id_nth. intros i row Hrow. cbn [Nat.add].
  apply nth_error_repeat_inv in Hrow as [-> Hi].
  apply imap_from_id_nth. intros j px Hpx. cbn [Nat.add].
  apply nth_error_repeat_inv in Hpx as [-> Hj].
  apply imap_from_id_nth. intros c v Hv. cbn [Nat.add].
  assert (Wg : grid_width g = w).
  { unfold g. destruct h; [lia |]. cbn. apply repeat_length. }
  apply saturate_cast_u8.
  - rewrite Forall_forall in Hu. apply Hu. now apply nth_error_In in Hv.
  - rewrite (correlate_flat g _ _ _ _ _ _ _ _ _ i j c v).
    + rewrite Hk. ring.
    + now rewrite Lg.
    + now rewrite Wg.
    + intros y x Hy Hx. rewrite Lg in Hy. rewrite Wg in Hx.
      unfold g. rewrite sample_at_flat by assumption.
      now apply nth_error_nth.
Qed.

Lemma map_id_in {A} (f : A -> A) (l : list A) :
  (forall x, In x l -> f x = x) -> map f l = l.
Proof.
  intros H. rewrite <- (map_id l) at 2. now apply map_ext_in.
Qed.

Lemma zip_with_diag {A B} (f : A -> A -> B) (l : list A) :
  zip_with f l l = map (fun x => f x x) l.
Proof. induction l as [| x t IH]; cbn; [reflexivity | now rewrite IH]. Qed.

(** X15 - Sharpening leaves a flat 8-bit image as it is, whatever the
    weight: the kernel of the stage sums to 1 and the blend weights sum
    to 1. *)
Theorem sharpen_keeps_flat_images
    (color : bool) (p : pixel) (w h : nat) (sharpness : Q) :
  Forall is_u8 p ->
  adjust_sharpness (flat_image color p w h) sharpness = flat_image color p w h.
Proof.
  intros Hu.
  change (adjust_sharpness (flat_image color p w h) sharpness) with
    (addWeighted (flat_image color p w h) (1 - sharpness)
       (filter2D (flat_image color p w h)
          [[-1 * sharpness; -1 * sharpness; -1 * sharpness];
           [-1 * sharpness; 8 * sharpness + 1; -1 * sharpness];
           [-1 * sharpness; -1 * sharpness; -1 * sharpness]]%Q)
       sharpness 0).
  rewrite filter2D_flat; [| exact Hu | ring].
  unfold addWeighted, zip_samples, flat_image. cbn [ndim3 pixels]. f_equal.
  rewrite zip_with_diag. apply map_id_in. intros row Hrow.
  apply repeat_spec in Hrow. subst row.
  rewrite zip_with_diag. apply map_id_in. intros px Hpx.
  apply repeat_spec in Hpx. subst px.
  rewrite zip_with_diag. apply map_id_in. intros v Hv.
  apply saturate_cast_u8; [| ring].
  rewrite Forall_forall in Hu. now apply Hu.
Qed.

Lemma sharpen_keeps_flat_images_witness :
  adjust_sharpness (flat_image false [120] 4 3) (7 # 10) = flat_image false [120] 4 3.
Proof.
  apply sharpen_keeps_flat_images. repeat constructor; unfold is_u8; lia.
Defined.

(* ===================================================================== *)
(** ** The names [save_image] writes *)
(* ===================================================================== *)

Local Open Scope string_scope.

Lemma string_app_assoc (a b c : string) : (a ++ b) ++ c = a ++ (b ++ c).
Proof. induction a as [| x a IH]; cbn; [reflexivity | now rewrite IH]. Qed.

Lemma rsplit_char_spec (c : ascii) (s h tl : string) :
  rsplit_char c s = Some (h, tl) ->
  s = h ++ String c tl /\ rsplit_char c tl = None.
Proof.
  revert h. induction s as [| a s IH]; intros h; cbn; [discriminate |].
  destruct (rsplit_char c s) as [[h' tl'] |] eqn:E.
  - intros H. injection H as <- <-.
    destruct (IH h' eq_refl) as [-> N]. split; [reflexivity | exact N].
  - destruct (Ascii.eqb_spec a c) as [-> | _]; [| discriminate].
    intros H. injection H as <- <-. split; [reflexivity | exact E].
Qed.

Lemma rsplit_char_app (c : ascii) (h tl : string) :
  rsplit_char c tl = None ->
  rsplit_char c (h ++ String c tl) = Some (h, tl).
Proof.
  intros N. induction h as [| a h IH]; cbn.
  - rewrite N. now rewrite Ascii.eqb_refl.
  - now rewrite IH.
Qed.

Lemma rsplit_char_none_app (c : ascii) (a b : string) :
  rsplit_char c a = None -> rsplit_char c b = None ->
  rsplit_char c (a ++ b) = None.
Proof.
  intros Ha Hb. induction a as [| x a IH]; cbn in *; [exact Hb |].
  destruct (rsplit_char c a) as [[? ?] |]; [discriminate |].
  rewrite (IH eq_refl). destruct (Ascii.eqb x c); [discriminate | reflexivity].
Qed.

Lemma rsplit_char_none_prefix (c : ascii) (a b : string) :
  rsplit_char c (a ++ b) = None -> rsplit_char c a = None.
Proof.
  induction a as [| x a IH]; cbn; [reflexivity |].
  destruct (rsplit_char c (a ++ b)) as [[? ?] |] eqn:E; [discriminate |].
  rewrite (IH eq_refl). destruct (Ascii.eqb x c); [discriminate | reflexivity].
Qed.

Lemma all_chars_app_other (c x : ascii) (a t : string) :
  x <> c -> all_chars c (a ++ String x t) = false.
Proof.
  intros N. induction a as [| y a IH]; cbn.
  - apply Ascii.eqb_neq in N. now rewrite N.
  - rewrite IH. apply andb_false_r.
Qed.

(** What [splitext] returns: no extension and the name itself, or an
    extension that starts at the last dot of the name. *)
Lemma splitext_spec (name stem ext : string) :
  splitext name = (stem, ext) ->
  (ext = "" /\ stem = name) \/
  (exists tl, ext = String "." tl /\ rsplit_char "." tl = None /\
              name = stem ++ ext /\ all_chars "." stem = false).
Proof.
  unfold splitext.
  destruct (rsplit_char "." name) as [[s tl] |] eqn:E.
  - destruct (all_chars "." s) eqn:A; intros H; injection H as <- <-.
    + left. split; reflexivity.
    + right. exists tl. destruct (rsplit_char_spec _ _ _ _ E) as [-> N].
      repeat split; assumption.
  - intros H. injection H as <- <-. left. split; reflexivity.
Qed.

Lemma splitext_app (stem tl : string) :
  all_chars "." stem = false -> rsplit_char "." tl = None ->
  splitext (stem ++ String "." tl) = (stem, String "." tl).
Proof.
  intros A N. unfold splitext. now rewrite (rsplit_char_app _ _ _ N), A.
Qed.

Lemma timestamp_shaped_here (ts : string) :
  timestamp_shaped ts -> timestamp_here ts = true.
Proof. unfold timestamp_shaped, timestamp_here. now intros ->. Qed.

Lemma timestamp_tail_underscore (s rest : string) :
  timestamp_tail s = Some rest -> exists t, s = String "_" t.
Proof.
  destruct s as [| a t]; cbn; [discriminate |].
  destruct (Ascii.eqb_spec a "_") as [-> | _]; [| discriminate].
  intros _. now exists t.
Qed.

Lemma has_timestamp_app (a ts : string) :
  timestamp_here ts = true -> has_timestamp (a ++ ts) = true.
Proof.
  intros H. induction a as [| x a IH]; cbn.
  - destruct ts; cbn in *; now rewrite H.
  - rewrite IH. apply orb_true_r.
Qed.

Lemma has_timestamp_not_dots (s : string) :
  has_timestamp s = true -> all_chars "." s = false.
Proof.
  induction s as [| a s IH]; cbn.
  - unfold timestamp_here. cbn. discriminate.
  - intros H. apply orb_true_iff in H as [H | H].
    + unfold timestamp_here in H.
      destruct (timestamp_tail (String a s)) as [rest |] eqn:E;
        [| discriminate].
      destruct (timestamp_tail_underscore _ _ E) as [t Et].
      injection Et as -> _. reflexivity.
    + rewrite (IH H). apply andb_false_r.
Qed.

Lemma timestamp_shaped_not_dots (a ts : string) :
  timestamp_shaped ts -> all_chars "." (a ++ ts) = false.
Proof.
  intros H. destruct (timestamp_tail_underscore _ _ H) as [t ->].
  apply all_chars_app_other. discriminate.
Qed.

Lemma rsplit_char_none_suffix (c : ascii) (a b : string) :
  rsplit_char c (a ++ b) = None -> rsplit_char c b = None.
Proof.
  induction a as [| x a IH]; cbn; [trivial |].
  destruct (rsplit_char c (a ++ b)) as [[? ?] |] eqn:E; [discriminate |].
  intros _. now apply IH.
Qed.

Lemma rsplit_char_none_cons (c a : ascii) (t : string) :
  Ascii.eqb a c = false -> rsplit_char c t = None ->
  rsplit_char c (String a t) = None.
Proof. intros E N. cbn. now rewrite N, E. Qed.

Lemma basename_no_separator (p : string) : rsplit_char "/" (basename p) = None.
Proof.
  unfold basename. destruct (rsplit_char "/" p) as [[h tl] |] eqn:E.
  - exact (proj2 (rsplit_char_spec _ _ _ _ E)).
  - exact E.
Qed.

Lemma ends_with_char_spec (c : ascii) (s : string) :
  ends_with_char c s = true -> exists h, s = h ++ String c EmptyString.
Proof.
  induction s as [| a t IH]; cbn; [discriminate |].
  destruct t as [| b u].
  - intros E. apply Ascii.eqb_eq in E as ->. now exists EmptyString.
  - intros E. destruct (IH E) as [h ->]. now exists (String a h).
Qed.

Lemma string_app_cons (h : string) (c : ascii) (n : string) :
  (h ++ String c EmptyString) ++ n = h ++ String c n.
Proof. now rewrite string_app_assoc. Qed.

Lemma starts_with_separator (n : string) :
  rsplit_char "/" n = None -> starts_with (String "/" EmptyString) n = false.
Proof.
  destruct n as [| a t]; [reflexivity |]. cbn [rsplit_char].
  destruct (rsplit_char "/" t) as [[? ?] |]; [discriminate |].
  destruct (Ascii.eqb_spec a "/") as [-> | Ne]; [discriminate |]. intros _.
  cbn [starts_with].
  destruct (Ascii.eqb_spec "/" a) as [<- | _]; [now elim Ne | reflexivity].
Qed.

(** The base name of a path joined from a directory and a name without
    separator is that name. *)
Lemma basename_join (d n : string) :
  rsplit_char "/" n = None -> basename (join d n) = n.
Proof.
  intros N. unfold join.
  rewrite (starts_with_separator n N). unfold basename.
  destruct (String.eqb_spec d EmptyString) as [-> | _]; cbn [orb].
  - cbn. now rewrite N.
  - destruct (ends_with_char "/" d) eqn:E.
    + destruct (ends_with_char_spec _ _ E) as [h ->].
      now rewrite string_app_cons, (rsplit_char_app _ _ _ N).
    + now rewrite (rsplit_char_app _ _ _ N).
Qed.

Lemma is_digit_not_separator (a : ascii) :
  is_digit a = true -> Ascii.eqb a "/" = false.
Proof.
  destruct a as [[] [] [] [] [] [] [] []]; cbn; intros H;
    try reflexivity; discriminate H.
Qed.

Lemma digits_no_separator (n : nat) (s rest : string) :
  digits n s = Some rest -> rsplit_char "/" rest = None ->
  rsplit_char "/" s = None.
Proof.
  revert s. induction n as [| n IH]; intros s; cbn.
  - intros H. now injection H as ->.
  - destruct s as [| a t]; [discriminate |].
    destruct (is_digit a) eqn:D; [| discriminate].
    intros H R. apply rsplit_char_none_cons.
    + now apply is_digit_not_separator.
    + now apply IH.
Qed.

Lemma timestamp_no_separator (ts : string) :
  timestamp_shaped ts -> rsplit_char "/" ts = None.
Proof.
  unfold timestamp_shaped, timestamp_tail.
  destruct ts as [| a t]; [discriminate |].
  destruct (Ascii.eqb_spec a "_") as [-> | _]; [| discriminate].
  destruct (digits 8 t) as [[| b u] |] eqn:D8; try discriminate.
  destruct (Ascii.eqb_spec b "_") as [-> | _]; [| discriminate].
  intros D6. apply rsplit_char_none_cons; [reflexivity |].
  apply (digits_no_separator 8 t _ D8).
  apply rsplit_char_none_cons; [reflexivity |].
  now apply (digits_no_separator 6 u _ D6).
Qed.


Lemma rstrip_char_empty (c : ascii) (s : string) :
  rstrip_char c s = EmptyString <-> all_chars c s = true.
Proof.
  induction s as [| a t IH]; cbn; [tauto |].
  destruct (rstrip_char c t) as [| b r].
  - rewrite (proj1 IH eq_refl), andb_true_r.
    destruct (Ascii.eqb a c); split; (reflexivity || discriminate).
  - split; [discriminate |]. intros H.
    apply andb_true_iff in H as [_ H]. apply IH in H. discriminate.
Qed.

Lemma rstrip_char_app (c : ascii) (s : string) :
  rstrip_char c (s ++ String c EmptyString) = rstrip_char c s.
Proof.
  induction s as [| a t IH]; cbn.
  - now rewrite Ascii.eqb_refl.
  - now rewrite IH.
Qed.

Lemma rstrip_char_cons (c a : ascii) (t : string) :
  rstrip_char c (String a t) =
  match rstrip_char c t with
  | EmptyString => if Ascii.eqb a c then EmptyString else String a EmptyString
  | String b r => String a (String b r)
  end.
Proof. reflexivity. Qed.

Lemma rstrip_char_fixed (c : ascii) (s : string) :
  ends_with_char c s = false -> rstrip_char c s = s.
Proof.
  induction s as [| a t IH]; [reflexivity |].
  cbn [ends_with_char]. destruct t as [| b u].
  - intros E. cbn. now rewrite E.
  - intros E. rewrite rstrip_char_cons. now rewrite (IH E).
Qed.

Lemma rstrip_char_ends (c : ascii) (s : string) :
  all_chars c s = false ->
  ends_with_char c (rstrip_char c s) = false /\
  all_chars c (rstrip_char c s) = false.
Proof.
  induction s as [| a t IH]; [discriminate |].
  cbn [all_chars rstrip_char]. intros H.
  destruct (rstrip_char c t) as [| b r] eqn:R.
  - apply rstrip_char_empty in R. rewrite R, andb_true_r in H.
    rewrite H. cbn. now rewrite H.
  - assert (A : all_chars c t = false).
    { destruct (all_chars c t) eqn:A; [| reflexivity].
      apply rstrip_char_empty in A. rewrite A in R. discriminate. }
    destruct (IH A) as [E1 E2]. split.
    + exact E1.
    + cbn [all_chars] in E2 |- *. rewrite E2. apply andb_false_r.
Qed.

Lemma all_chars_app (c : ascii) (a b : string) :
  all_chars c (a ++ b) = all_chars c a && all_chars c b.
Proof.
  induction a as [| x a IH]; cbn; [reflexivity |].
  now rewrite IH, andb_assoc.
Qed.

Lemma all_chars_ends (c : ascii) (s : string) :
  all_chars c s = true -> s <> EmptyString -> ends_with_char c s = true.
Proof.
  induction s as [| a t IH]; [now intros _ H |].
  cbn. intros H _. apply andb_true_iff in H as [Ha Ht].
  destruct t as [| b u]; [exact Ha |]. apply IH; [exact Ht | discriminate].
Qed.

(** What [dirname] returns: nothing, separators only, or a text that does
    not end with a separator. *)
Lemma dirname_cases (p : string) :
  dirname p = EmptyString \/
  (dirname p <> EmptyString /\ all_chars "/" (dirname p) = true) \/
  (all_chars "/" (dirname p) = false /\
   ends_with_char "/" (dirname p) = false).
Proof.
  unfold dirname. destruct (rsplit_char "/" p) as [[h tl] |]; [| now left].
  right. cbn zeta.
  destruct (all_chars "/" (h ++ String "/" EmptyString)) eqn:A.
  - left. split; [| exact A]. destruct h; discriminate.
  - right. destruct (rstrip_char_ends _ _ A) as [E1 E2]. now split.
Qed.

(** A name without separator joined to the directory of a path lies in
    that directory. *)
Lemma dirname_join (p n : string) :
  rsplit_char "/" n = None -> dirname (join (dirname p) n) = dirname p.
Proof.
  intros N. unfold join.
  rewrite (starts_with_separator n N).
  destruct (dirname_cases p) as [-> | [[Ne A] | [A E]]].
  - cbn. unfold dirname. now rewrite N.
  - rewrite (all_chars_ends _ _ A Ne), orb_true_r.
    destruct (ends_with_char_spec _ _ (all_chars_ends _ _ A Ne)) as [h Eh].
    rewrite Eh in A |- *. rewrite string_app_cons.
    unfold dirname at 1. rewrite (rsplit_char_app _ _ _ N). cbn zeta.
    now rewrite A.
  - rewrite E, orb_false_r.
    destruct (String.eqb_spec (dirname p) EmptyString) as [Z | _];
      [rewrite Z in A; discriminate |].
    unfold dirname at 1. rewrite (rsplit_char_app _ _ _ N). cbn zeta.
    rewrite all_chars_app, A. cbn [andb].
    rewrite rstrip_char_app. now apply rstrip_char_fixed.
Qed.

(** Where the extension is one of those encoded as named, the path written
    is the directory of the chosen path joined with [new_file_name]. *)
Lemma save_target_named (file_path ts : string) :
  encoded_as_named (snd (splitext (basename file_path))) = true ->
  fst (fst (save_target file_path ts)) =
  join (dirname file_path) (new_file_name (basename file_path) ts).
Proof.
  unfold save_target, new_file_name, encoded_as_named.
  destruct (splitext (basename file_path)) as [stem ext]. cbn [snd].
  destruct (String.eqb_spec ext EmptyString) as [-> | _]; [reflexivity |].
  cbn [orb string_in existsb].
  destruct (String.eqb (lower ext) ".jpg"), (String.eqb (lower ext) ".jpeg"),
           (String.eqb (lower ext) ".png");
    cbn [orb]; intros H; try discriminate H; reflexivity.
Qed.

(** A name with a timestamp before its extension is kept by
    [new_file_name]. *)
Lemma new_file_name_keeps (stem tl ts' : string) :
  has_timestamp stem = true -> rsplit_char "." tl = None ->
  let name := stem ++ String "." tl in
  splitext name = (stem, String "." tl) /\
  new_file_name name ts' = name.
Proof.
  intros T N name.
  assert (E : splitext name = (stem, String "." tl))
    by (apply splitext_app; [now apply has_timestamp_not_dots | exact N]).
  split; [exact E |].
  unfold new_file_name. rewrite E. cbn [String.eqb]. now rewrite T.
Qed.

(** The shape of [new_file_name]: a stem that ends with a timestamp, then
    the extension of the chosen name, [.png] when it has none. *)
Lemma new_file_name_shape (file_name ts : string) :
  timestamp_shaped ts ->
  exists stem tl,
    new_file_name file_name ts = stem ++ String "." tl /\
    has_timestamp stem = true /\
    rsplit_char "." tl = None /\
    String "." tl =
      (if String.eqb (snd (splitext file_name)) EmptyString
       then ".png" else snd (splitext file_name)) /\
    (rsplit_char "/" file_name = None ->
     rsplit_char "/" (stem ++ String "." tl) = None).
Proof.
  intros Hts.
  pose proof (timestamp_shaped_here ts Hts) as Hhere.
  pose proof (timestamp_no_separator ts Hts) as Nts.
  unfold new_file_name.
  destruct (splitext file_name) as [stem ext] eqn:E. cbn [snd].
  destruct (splitext_spec _ _ _ E) as [[-> ->] | (tl & -> & N & Ename & A)].
  - cbn [String.eqb].
    destruct (has_timestamp file_name) eqn:T; cbn [negb].
    + exists file_name, "png". repeat split; try assumption.
      intros Nsep. now apply rsplit_char_none_app.
    + exists (file_name ++ ts), "png". rewrite string_app_assoc.
      repeat split; [now apply has_timestamp_app |].
      intros Nsep. now repeat apply rsplit_char_none_app.
  - cbn [String.eqb].
    destruct (has_timestamp stem) eqn:T; cbn [negb].
    + exists stem, tl. repeat split; try assumption. now rewrite <- Ename.
    + exists (stem ++ ts), tl. rewrite string_app_assoc.
      repeat split; [now apply has_timestamp_app | exact N |].
      intros Nsep. rewrite Ename in Nsep.
      pose proof (rsplit_char_none_prefix _ _ _ Nsep).
      pose proof (rsplit_char_none_suffix _ _ _ Nsep).
      now repeat apply rsplit_char_none_app.
Qed.

Lemma encoded_as_named_default (ext : string) :
  encoded_as_named ext = true ->
  encoded_as_named (if String.eqb ext EmptyString then ".png" else ext) = true.
Proof. destruct (String.eqb_spec ext EmptyString) as [-> | _]; trivial. Qed.

(** X16 - For a chosen path whose extension is [.jpg], [.jpeg] or [.png]
    in any letter case, or that has none, the file [save_image] writes lies
    in the chosen directory and its name carries a timestamp right before
    the extension; when the written path is chosen again, the same path is
    written: no second timestamp is appended. *)
Theorem saved_name_has_one_timestamp (file_path ts ts' : string) :
  timestamp_shaped ts ->
  encoded_as_named (snd (splitext (basename file_path))) = true ->
  let written := fst (fst (save_target file_path ts)) in
  dirname written = dirname file_path /\
  has_timestamp (fst (splitext (basename written))) = true /\
  fst (fst (save_target written ts')) = written.
Proof.
  intros Hts Henc written. subst written.
  rewrite (save_target_named file_path ts Henc).
  destruct (new_file_name_shape (basename file_path) ts Hts)
    as (stem & tl & -> & T & N & Eext & Nsep).
  specialize (Nsep (basename_no_separator file_path)).
  destruct (new_file_name_keeps stem tl ts' T N) as [E K].
  set (w := stem ++ String "." tl) in *.
  assert (Eb : basename (join (dirname file_path) w) = w)
    by now apply basename_join.
  assert (Ed : dirname (join (dirname file_path) w) = dirname file_path)
    by now apply dirname_join.
  split; [exact Ed |]. split; [now rewrite Eb, E |].
  rewrite save_target_named.
  - now rewrite Eb, Ed, K.
  - rewrite Eb, E. cbn [snd]. rewrite Eext.
    now apply encoded_as_named_default.
Qed.

Lemma saved_name_has_one_timestamp_witness :
  fst (fst (save_target "/out/report.JPG" "_20240101_120000"))
  = "/out/report_20240101_120000.JPG" /\
  fst (fst (save_target "/out/report_20240101_120000.JPG" "_20250607_081500"))
  = "/out/report_20240101_120000.JPG".
Proof.
  split; [reflexivity |].
  exact (proj2 (proj2 (saved_name_has_one_timestamp "/out/report.JPG"
                         "_20240101_120000" "_20250607_081500"
                         eq_refl eq_refl))).
Defined.



(* ===================================================================== *)
(** ** The file type check of drag and drop *)
(* ===================================================================== *)

Lemma lower_char_keeps_dot_and_slash (a : ascii) :
  Ascii.eqb (lower_char a) "." = Ascii.eqb a "." /\
  Ascii.eqb (lower_char a) "/" = Ascii.eqb a "/".
Proof.
  destruct a as [[] [] [] [] [] [] [] []]; split; reflexivity.
Qed.

Lemma lower_char_idempotent (a : ascii) :
  lower_char (lower_char a) = lower_char a.
Proof.
  destruct a as [[] [] [] [] [] [] [] []]; reflexivity.
Qed.

Lemma lower_idempotent (s : string) : lower (lower s) = lower s.
Proof.
  induction s as [| a s IH]; cbn; [reflexivity |].
  now rewrite lower_char_idempotent, IH.
Qed.

Lemma lower_app (a b : string) : lower (a ++ b) = lower a ++ lower b.
Proof. induction a as [| x a IH]; cbn; [reflexivity | now rewrite IH]. Qed.

Lemma rsplit_char_lower (c : ascii) (s : string) :
  (forall a, Ascii.eqb (lower_char a) c = Ascii.eqb a c) ->
  rsplit_char c (lower s) =
  match rsplit_char c s with
  | Some (h, tl) => Some (lower h, lower tl)
  | None => None
  end.
Proof.
  intros Hc. induction s as [| a s IH]; cbn; [reflexivity |].
  rewrite IH. destruct (rsplit_char c s) as [[h tl] |]; [reflexivity |].
  rewrite Hc. now destruct (Ascii.eqb a c).
Qed.

Lemma all_chars_lower (s : string) :
  all_chars "." (lower s) = all_chars "." s.
Proof.
  induction s as [| a s IH]; cbn; [reflexivity |].
  now rewrite IH, (proj1 (lower_char_keeps_dot_and_slash a)).
Qed.

Lemma splitext_lower (name : string) :
  splitext (lower name) =
  (lower (fst (splitext name)), lower (snd (splitext name))).
Proof.
  unfold splitext.
  rewrite (rsplit_char_lower "." name
             (fun a => proj1 (lower_char_keeps_dot_and_slash a))).
  destruct (rsplit_char "." name) as [[stem tl] |]; [| reflexivity].
  rewrite all_chars_lower. destruct (all_chars "." stem); reflexivity.
Qed.

(** X18 - [is_image_file] ignores the letter case of the whole path: a
    path and its lower-case form are accepted or refused alike. *)
Theorem is_image_file_ignores_case (file_path : string) :
  is_image_file (lower file_path) = is_image_file file_path.
Proof.
  unfold is_image_file. f_equal.
  unfold splitext_path.
  rewrite (rsplit_char_lower "/" file_path
             (fun a => proj2 (lower_char_keeps_dot_and_slash a))).
  destruct (rsplit_char "/" file_path) as [[dir name] |].
  - rewrite splitext_lower. destruct (splitext name) as [stem ext].
    cbn [fst snd]. apply lower_idempotent.
  - rewrite splitext_lower. cbn [snd]. apply lower_idempotent.
Qed.
